(** * TranscribePY: the batch transcription pipeline of [transcribe_pro.py]

    A shallow embedding of [summarize_text], [transcribe_audio] and [main],
    and the properties of the pipeline that its specification states.

    Modelling conventions.
    - A Python [str] is a [string]; each character stands for one code point
      below 256.  [is_space] is [str.isspace] on that range.
    - A Python [float] is an IEEE 754 double, a [spec_float].
    - The file system is a finite map from the path strings the program
      computes to nodes; paths are compared as strings, [os.path] is the
      POSIX one, and the parent of a written path is taken to exist.
    - The three model services (speech recognition, noise reduction,
      summarization) and the audio library are oracles: functions of the
      current world (file system and event history) that either return a
      value or raise.  Every call and every console message is appended to
      the history.
    - Code runs in a state-and-exception monad; [try_except] is Python's
      [try: ... except Exception as e: ...].

    Outside the model: argument parsing, the progress bar, exceptions that
    are not [Exception]s (interrupts), failures of [print], and I/O faults
    other than those a node's kind determines (a text write either fails
    when the file is opened or writes everything). *)

From Stdlib Require Import ZArith Ascii String List Lia SpecFloat DecimalString.
From stdpp Require Import base option list gmap strings.

Local Open Scope Z_scope.

(** ** Exceptions and outcomes *)

Inductive exn : Type :=
| ValueError
| TypeError
| KeyError (key : string)
| FileNotFoundError (path : string)
| IsADirectoryError (path : string)
| NotADirectoryError (path : string)
| PermissionError (path : string)
| FileExistsError (path : string)
| ServiceError (msg : string).

Inductive outcome (A : Type) : Type :=
| Ok (a : A)
| Raise (e : exn).
Arguments Ok {A} a.
Arguments Raise {A} e.

(** ** Python strings *)

Module PyStr.

(** [str.isspace] for one character (code points below 256). *)
Definition is_space (c : ascii) : bool :=
  let n := N_of_ascii c in
  ((9 <=? n) && (n <=? 13) || (28 <=? n) && (n <=? 32)
   || (n =? 133) || (n =? 160))%N.

Definition flush (cur : string) : list string :=
  match cur with
  | EmptyString => []
  | _ => [cur]
  end.

(** [s.split()]: maximal runs of non-space characters, left to right;
    [cur] is the word being read. *)
Fixpoint split_ws_from (cur s : string) : list string :=
  match s with
  | EmptyString => flush cur
  | String c s' =>
      if is_space c then flush cur ++ split_ws_from EmptyString s'
      else split_ws_from (cur +:+ String c EmptyString) s'
  end.

Definition split_ws (s : string) : list string := split_ws_from EmptyString s.

(** [sep.join(l)] *)
Fixpoint join (sep : string) (l : list string) : string :=
  match l with
  | [] => EmptyString
  | [x] => x
  | x :: rest => x +:+ sep +:+ join sep rest
  end.

Fixpoint lstrip (s : string) : string :=
  match s with
  | EmptyString => EmptyString
  | String c s' => if is_space c then lstrip s' else s
  end.

Fixpoint rstrip (s : string) : string :=
  match s with
  | EmptyString => EmptyString
  | String c s' =>
      match rstrip s' with
      | EmptyString => if is_space c then EmptyString else String c EmptyString
      | r => String c r
      end
  end.

(** [s.strip()] *)
Definition strip (s : string) : string := rstrip (lstrip s).

Fixpoint drop (n : nat) (s : string) : string :=
  match n, s with
  | O, _ => s
  | S n', String _ s' => drop n' s'
  | S _, EmptyString => EmptyString
  end.

Fixpoint take (n : nat) (s : string) : string :=
  match n, s with
  | S n', String c s' => String c (take n' s')
  | _, _ => EmptyString
  end.

(** [s.partition(sep)] when [sep] occurs: the text before the first
    occurrence and the text after it. *)
Fixpoint partition (sep s : string) : option (string * string) :=
  if String.prefix sep s then Some (EmptyString, drop (String.length sep) s)
  else match s with
       | EmptyString => None
       | String c s' =>
           match partition sep s' with
           | Some (a, b) => Some (String c a, b)
           | None => None
           end
       end.

(** [s.split(sep)] for a non-empty [sep]: cut at the first occurrence and
    go on in the remainder.  The remainder is shorter each time, so
    [String.length s] rounds are enough. *)
Fixpoint split_fuel (fuel : nat) (sep s : string) : list string :=
  match fuel with
  | O => [s]
  | S fuel' =>
      match partition sep s with
      | None => [s]
      | Some (a, b) => a :: split_fuel fuel' sep b
      end
  end.

Definition split (sep s : string) : list string :=
  split_fuel (String.length s) sep s.

(** [l[-1]] of a list that [split] returned (never empty). *)
Definition last_item (l : list string) : string := List.last l EmptyString.

(** [s.endswith(suffix)] *)
Definition endswith (s suffix : string) : bool :=
  String.eqb (drop (String.length s - String.length suffix) s) suffix
  && (String.length suffix <=? String.length s)%nat.

(** [s.lower()] on code points below 256: A-Z, and the Latin-1 capitals
    192-222 except the multiplication sign 215. *)
Definition lower_char (c : ascii) : ascii :=
  let n := N_of_ascii c in
  if ((65 <=? n) && (n <=? 90)
      || (192 <=? n) && (n <=? 222) && negb (n =? 215))%N
  then ascii_of_N (n + 32) else c.

Fixpoint lower (s : string) : string :=
  match s with
  | EmptyString => EmptyString
  | String c s' => String (lower_char c) (lower s')
  end.

Definition upper_char (c : ascii) : ascii :=
  let n := N_of_ascii c in
  if ((97 <=? n) && (n <=? 122))%N then ascii_of_N (n - 32) else c.

(** [s.upper()], used on the ASCII device names only. *)
Fixpoint upper (s : string) : string :=
  match s with
  | EmptyString => EmptyString
  | String c s' => String (upper_char c) (upper s')
  end.

(** [s.rfind(c)] for one character: the index of its last occurrence. *)
Fixpoint rfind_char (c : ascii) (s : string) : option nat :=
  match s with
  | EmptyString => None
  | String d s' =>
      match rfind_char c s' with
      | Some i => Some (S i)
      | None => if Ascii.eqb c d then Some O else None
      end
  end.

(** A word: not empty, no white space in it. *)
Fixpoint no_space (s : string) : bool :=
  match s with
  | EmptyString => true
  | String c s' => negb (is_space c) && no_space s'
  end.

Definition is_word (s : string) : Prop := s ≠ "" ∧ no_space s = true.

End PyStr.

(** ** Python lists and ranges *)

(** [range(start, stop, step)] *)
Definition py_range (start stop step : Z) : outcome (list Z) :=
  if step =? 0 then Raise ValueError
  else
    let n := if 0 <? step then (stop - start + step - 1) / step
             else (start - stop - step - 1) / (- step) in
    Ok (map (fun k => start + Z.of_nat k * step) (seq 0 (Z.to_nat n))).

Definition clamp_index (n k : Z) : Z :=
  if k <? 0 then Z.max (k + n) 0 else Z.min k n.

(** [l[i:j]] *)
Definition py_slice {A : Type} (l : list A) (i j : Z) : list A :=
  let n := Z.of_nat (length l) in
  let lo := clamp_index n i in
  let hi := clamp_index n j in
  take (Z.to_nat (hi - lo)) (drop (Z.to_nat lo) l).

(** ** The chunking utility (lines 30-31 of [summarize_text]) *)

Definition chunks (text : string) (max_chunk_length : Z) : outcome (list string) :=
  let words := PyStr.split_ws text in
  match py_range 0 (Z.of_nat (length words)) max_chunk_length with
  | Raise e => Raise e
  | Ok idx =>
      Ok (map (fun i => PyStr.join " " (py_slice words i (i + max_chunk_length))) idx)
  end.


(** ** [os.path] (POSIX flavour) *)

Module OsPath.

Definition slash : ascii := "/"%char.
Definition dot : ascii := "."%char.

(** [s.rfind(c)] with Python's [-1] for "not found". *)
Definition rfind (c : ascii) (s : string) : Z :=
  match PyStr.rfind_char c s with
  | Some i => Z.of_nat i
  | None => -1
  end.

(** [os.path.join(a, b)] *)
Definition join (a b : string) : string :=
  if String.prefix "/" b then b
  else if String.eqb a EmptyString || PyStr.endswith a "/" then a +:+ b
  else a +:+ "/" +:+ b.

(** [os.path.basename(p)] *)
Definition basename (p : string) : string :=
  PyStr.drop (Z.to_nat (rfind slash p + 1)) p.

Fixpoint has_non_dot (s : string) : bool :=
  match s with
  | EmptyString => false
  | String c s' => negb (Ascii.eqb c dot) || has_non_dot s'
  end.

(** [os.path.splitext(p)]: the extension starts at the last dot, provided
    that dot comes after the last slash and some character between the two
    is not a dot. *)
Definition splitext (p : string) : string * string :=
  let sepIndex := rfind slash p in
  let dotIndex := rfind dot p in
  if (sepIndex <? dotIndex)
     && has_non_dot (PyStr.take (Z.to_nat (dotIndex - (sepIndex + 1)))
                                (PyStr.drop (Z.to_nat (sepIndex + 1)) p))
  then (PyStr.take (Z.to_nat dotIndex) p, PyStr.drop (Z.to_nat dotIndex) p)
  else (p, EmptyString).

End OsPath.

(** ** Formatting a float with [:.2f]

    A Python float is an IEEE 754 double, here a [spec_float]: a zero, an
    infinity, a NaN, or [m * 2^e] with a sign.  [:.2f] rounds the exact value
    to the nearest hundredth, ties to even. *)

Definition decimal (n : Z) : string :=
  DecimalString.NilEmpty.string_of_uint (N.to_uint (Z.to_N n)).

Definition two_digits (n : Z) : string :=
  if n <? 10 then "0" +:+ decimal n else decimal n.

Definition hundredths (m : positive) (e : Z) : Z :=
  if 0 <=? e then Z.pos m * 2 ^ e * 100
  else
    let d := 2 ^ (- e) in
    let n := Z.pos m * 100 in
    let q := n / d in
    let r := n mod d in
    if (d <? 2 * r) || ((d =? 2 * r) && Z.odd q) then q + 1 else q.

Definition format_2f (x : spec_float) : string :=
  match x with
  | S754_nan => "nan"
  | S754_infinity s => if s then "-inf" else "inf"
  | S754_zero s => if s then "-0.00" else "0.00"
  | S754_finite s m e =>
      let h := hundredths m e in
      (if s then "-" else "") +:+ decimal (h / 100) +:+ "." +:+ two_digits (h mod 100)
  end.

(** ** The world: file system and event history *)

Inductive node : Type :=
| File (content : string)       (* a text file; its decoded content *)
| Binary                        (* a file that is not UTF-8 text (media) *)
| Denied                        (* a file that cannot be opened *)
| Dir (entries : list string).  (* a directory; what [os.listdir] returns *)

Inductive message : Type :=
| MsgSummarizing
| MsgSummaryDone
| MsgSummaryFailed (e : exn)
| MsgTranscribeFailed (name : string) (e : exn)
| MsgDevice (device : string)
| MsgLoadingWhisper (size : string)
| MsgWhisperLoaded
| MsgLoadingSummarizer
| MsgSummarizerLoaded
| MsgFolderNotFound (folder : string)
| MsgNoFiles (folder : string)
| MsgFound (n : nat)
| MsgDenoiseFailed (filename : string) (e : exn)
| MsgFinished
| MsgSucceeded (n : nat)
| MsgFailed (n : nat)
| MsgSavedIn (folder : string).

Inductive event : Type :=
| Print (m : message)
| LoadWhisper (size device : string)
| LoadSummarizer (device : Z)
| Transcribe (path language : string)
| Summarize (inputs : list string)
| SfRead (path : string)
| ReduceNoise (rate : Z)
| SfWrite (path : string).

Record world : Type := World {
  fs : gmap string node;
  trace : list event;   (* oldest first *)
}.

Definition log (ev : event) (w : world) : world :=
  {| fs := fs w; trace := trace w ++ [ev] |}.

Definition set_node (path : string) (n : node) (w : world) : world :=
  {| fs := <[path := n]> (fs w); trace := trace w |}.

(** ** The state-and-exception monad *)

Definition M (St A : Type) : Type := St -> outcome A * St.

Definition ret {St A} (a : A) : M St A := fun s => (Ok a, s).

Definition raise {St A} (e : exn) : M St A := fun s => (Raise e, s).

Definition bind {St A B} (c : M St A) (k : A -> M St B) : M St B :=
  fun s =>
    match c s with
    | (Ok a, s') => k a s'
    | (Raise e, s') => (Raise e, s')
    end.

(** [try: body  except Exception as e: handler e].  What the body did to the
    state before it raised stays done. *)
Definition try_except {St A} (body : M St A) (handler : exn -> M St A) : M St A :=
  fun s =>
    match body s with
    | (Ok a, s') => (Ok a, s')
    | (Raise e, s') => handler e s'
    end.

Definition of_outcome {St A} (o : outcome A) : M St A := fun s => (o, s).

Notation "'let*' x ':=' c 'in' k" := (bind c (fun x => k))
  (at level 10, x name, c at level 100, k at level 200, only parsing).
Notation "'let*' ' pat ':=' c 'in' k" :=
  (bind c (fun x => match x with pat => k end))
  (at level 10, pat pattern, c at level 100, k at level 200, only parsing).

Fixpoint for_each {St A B} (body : A -> B -> M St B) (l : list A) (acc : B) : M St B :=
  match l with
  | [] => ret acc
  | x :: rest => let* acc' := body x acc in for_each body rest acc'
  end.

(** *** Console and file-system primitives *)

Definition print (m : message) : M world unit :=
  fun w => (Ok tt, log (Print m) w).

(** [os.path.exists] *)
Definition path_exists (path : string) : M world bool :=
  fun w => (Ok match fs w !! path with Some _ => true | None => false end, w).

(** [os.path.isdir] *)
Definition isdir (path : string) : M world bool :=
  fun w => (Ok match fs w !! path with Some (Dir _) => true | _ => false end, w).

(** [with open(path, 'r', encoding='utf-8') as f: f.read()] *)
Definition read_text (path : string) : M world string :=
  fun w =>
    match fs w !! path with
    | Some (File content) => (Ok content, w)
    | Some Binary => (Raise ValueError, w)     (* UnicodeDecodeError *)
    | Some Denied => (Raise (PermissionError path), w)
    | Some (Dir _) => (Raise (IsADirectoryError path), w)
    | None => (Raise (FileNotFoundError path), w)
    end.

(** [with open(path, 'w', encoding='utf-8') as f: f.write(content)] *)
Definition write_text (path content : string) : M world unit :=
  fun w =>
    match fs w !! path with
    | Some Denied => (Raise (PermissionError path), w)
    | Some (Dir _) => (Raise (IsADirectoryError path), w)
    | Some (File _) | Some Binary | None => (Ok tt, set_node path (File content) w)
    end.

(** [os.makedirs(path, exist_ok=True)] *)
Definition makedirs (path : string) : M world unit :=
  fun w =>
    match fs w !! path with
    | None => (Ok tt, set_node path (Dir []) w)
    | Some (Dir _) => (Ok tt, w)
    | Some _ => (Raise (FileExistsError path), w)
    end.

(** [os.listdir] *)
Definition listdir (path : string) : M world (list string) :=
  fun w =>
    match fs w !! path with
    | Some (Dir entries) => (Ok entries, w)
    | Some _ => (Raise (NotADirectoryError path), w)
    | None => (Raise (FileNotFoundError path), w)
    end.

(** *** Local variables of a function body

    A body that assigns to local variables which its exception handler
    reads afterwards runs on a state that pairs the locals with the world. *)

Definition lift {L A} (c : M world A) : M (L * world) A :=
  fun s =>
    match c (snd s) with
    | (r, w') => (r, (fst s, w'))
    end.

Definition var {L A} (proj : L -> A) : M (L * world) A :=
  fun s => (Ok (proj (fst s)), s).

Definition assign {L} (update : L -> L) : M (L * world) unit :=
  fun s => (Ok tt, (update (fst s), snd s)).

Definition with_locals {L A} (init : L) (c : M (L * world) A) : M world A :=
  fun w =>
    match c (init, w) with
    | (r, s') => (r, snd s')
    end.

(** ** The external services *)

(** One segment of a recognition result, a dict; [None] is a missing key. *)
Record segment : Type := Segment {
  seg_start : option spec_float;
  seg_end : option spec_float;
  seg_text : option string;
}.

(** What [model.transcribe] returns, a dict read with [.get]. *)
Record whisper_result : Type := WhisperResult {
  res_text : option string;
  res_segments : option (list segment);
}.

(** A loaded speech-recognition model: [model.transcribe(path,
    language=..., verbose=...)]. *)
Record whisper : Type := Whisper {
  transcribe : world -> string -> string -> bool -> outcome whisper_result;
}.

(** A loaded summarization pipeline: [summarizer(inputs, max_length=...,
    min_length=..., do_sample=...)] returns the [summary_text] of each
    input. *)
Record summarizer : Type := Summarizer {
  summarize_batch : world -> list string -> Z -> Z -> bool -> outcome (list string);
}.

Inductive write_result : Type :=
| Written
| WriteFailed (e : exn) (left_behind : bool).

Record services : Type := Services {
  audio : Type;                                   (* a sample buffer *)
  cuda_is_available : bool;                       (* torch.cuda.is_available() *)
  load_model : world -> string -> string -> outcome whisper;
  pipeline : world -> string -> string -> Z -> outcome summarizer;
  sf_read : world -> string -> outcome (audio * Z);
  ndim : audio -> Z;
  mean_axis1 : audio -> outcome audio;
  reduce_noise : world -> audio -> Z -> outcome audio;
  sf_write : world -> string -> audio -> Z -> write_result;
}.

(** Each call is recorded in the history, then the oracle answers. *)

Definition call_transcribe (model : whisper) (path language : string)
  : M world whisper_result :=
  fun w =>
    let w' := log (Transcribe path language) w in
    (transcribe model w' path language false, w').

Definition call_summarizer (s : option summarizer) (inputs : list string)
  : M world (list string) :=
  fun w =>
    match s with
    | None => (Raise TypeError, w)      (* calling [None] *)
    | Some s =>
        let w' := log (Summarize inputs) w in
        (summarize_batch s w' inputs 150 30 false, w')
    end.

Definition call_load_model (sv : services) (size device : string) : M world whisper :=
  fun w =>
    let w' := log (LoadWhisper size device) w in
    (load_model sv w' size device, w').

Definition call_pipeline (sv : services) (device : Z) : M world summarizer :=
  fun w =>
    let w' := log (LoadSummarizer device) w in
    (pipeline sv w' "summarization" "Falconsai/text_summarization" device, w').

Definition call_sf_read (sv : services) (path : string) : M world (audio sv * Z) :=
  fun w =>
    let w' := log (SfRead path) w in
    (sf_read sv w' path, w').

Definition call_reduce_noise (sv : services) (data : audio sv) (rate : Z)
  : M world (audio sv) :=
  fun w =>
    let w' := log (ReduceNoise rate) w in
    (reduce_noise sv w' data rate, w').

Definition call_sf_write (sv : services) (path : string) (data : audio sv) (rate : Z)
  : M world unit :=
  fun w =>
    let w' := log (SfWrite path) w in
    match sf_write sv w' path data rate with
    | Written => (Ok tt, set_node path Binary w')
    | WriteFailed e true => (Raise e, set_node path Binary w')
    | WriteFailed e false => (Raise e, w')
    end.

(** ** [summarize_text] (lines 14-42) *)

Definition LF : string := String (ascii_of_nat 10) EmptyString.

Definition SUMMARY_FAILED : string := "[Gagal membuat ringkasan]".

Definition summarize_text (text : string) (s : option summarizer)
    (max_chunk_length : Z) : M world string :=
  try_except
    (let* _ := print MsgSummarizing in
     let* chunks := of_outcome (chunks text max_chunk_length) in
     let* summaries := call_summarizer s chunks in
     let full_summary := PyStr.join " " summaries in
     let* _ := print MsgSummaryDone in
     ret full_summary)
    (fun e =>
       let* _ := print (MsgSummaryFailed e) in
       ret SUMMARY_FAILED).

(** ** [transcribe_audio] (lines 45-85) *)

Definition TRANSCRIPT_MARKER : string := "--- TRANSKRIPSI LENGKAP ---".

Definition format_segment (seg : segment) : outcome string :=
  match seg_start seg with
  | None => Raise (KeyError "start")
  | Some a =>
      match seg_end seg with
      | None => Raise (KeyError "end")
      | Some b =>
          match seg_text seg with
          | None => Raise (KeyError "text")
          | Some t =>
              Ok ("[" +:+ format_2f a +:+ "s - " +:+ format_2f b +:+ "s] "
                  +:+ PyStr.strip t)
          end
      end
  end.

Fixpoint format_segments (segs : list segment) : outcome (list string) :=
  match segs with
  | [] => Ok []
  | seg :: rest =>
      match format_segment seg with
      | Raise e => Raise e
      | Ok line =>
          match format_segments rest with
          | Raise e => Raise e
          | Ok lines => Ok (line :: lines)
          end
      end
  end.

Record locals : Type := Locals {
  full_text : string;
  output_file_path : string;
}.

Definition set_full_text (v : string) (l : locals) : locals :=
  {| full_text := v; output_file_path := output_file_path l |}.

Definition set_output_file_path (v : string) (l : locals) : locals :=
  {| full_text := full_text l; output_file_path := v |}.

(** The output path of a source file: [<output_folder>/<stem>.txt], the stem
    without a trailing [_cleaned] (lines 55-59). *)
Definition output_path_of (file_path output_folder : string) : string :=
  let base_name := fst (OsPath.splitext (OsPath.basename file_path)) in
  let base_name :=
    if PyStr.endswith base_name "_cleaned"
    then PyStr.take (String.length base_name - 8) base_name
    else base_name in
  OsPath.join output_folder (base_name +:+ ".txt").

Definition transcribe_audio (model : whisper)
    (file_path output_folder language : string) : M world (bool * string * string) :=
  with_locals {| full_text := ""; output_file_path := "" |}
    (try_except
       (let* _ := assign (set_output_file_path (output_path_of file_path output_folder)) in
        let* out := var output_file_path in
        let* found := lift (path_exists out) in
        if found then
          let* content := lift (read_text out) in
          let* _ := assign (set_full_text
                      (PyStr.strip (PyStr.last_item (PyStr.split TRANSCRIPT_MARKER content)))) in
          let* text := var full_text in
          ret (true, out, text)
        else
          let* result := lift (call_transcribe model file_path language) in
          let* _ := assign (set_full_text (default "" (res_text result))) in
          let* lines := of_outcome (format_segments (default [] (res_segments result))) in
          let formatted_transcription := PyStr.join LF lines in
          let* _ := lift (write_text out formatted_transcription) in
          let* text := var full_text in
          ret (true, out, text))
       (fun e =>
          let* _ := lift (print (MsgTranscribeFailed (OsPath.basename file_path) e)) in
          let* out := var output_file_path in
          let* text := var full_text in
          ret (false, out, text))).

(** ** [main] (lines 88-181) *)

(** The [choices] of [--model]. *)
Inductive model_size : Type := tiny | base | small | medium | large.

Definition model_name (m : model_size) : string :=
  match m with
  | tiny => "tiny"
  | base => "base"
  | small => "small"
  | medium => "medium"
  | large => "large"
  end.

(** The parsed command line. *)
Record args : Type := Args {
  audio_folder : string;
  output_folder : string;
  model : model_size;
  language : string;
  clean_noise : bool;
  summarize : bool;
}.

Definition SUPPORTED_EXTENSIONS : list string :=
  [".mp3"; ".wav"; ".m4a"; ".mp4"; ".mov"; ".avi"; ".mkv"].

(** [f.lower().endswith(SUPPORTED_EXTENSIONS)] *)
Definition supported (f : string) : bool :=
  existsb (PyStr.endswith (PyStr.lower f)) SUPPORTED_EXTENSIONS.

Definition SUMMARY_HEADER : string := "--- RINGKASAN ---".

(** The summarized layout written at lines 170-174. *)
Definition summarized_layout (summary original_content : string) : string :=
  SUMMARY_HEADER +:+ LF +:+ (summary +:+ LF +:+ LF)
  +:+ (TRANSCRIPT_MARKER +:+ LF) +:+ original_content.

(** The body of the [try] at lines 142-151: the path of the cleaned audio,
    produced first if it is not there yet. *)
Definition clean_audio (sv : services) (cleaned_audio_folder filename
    file_path_original : string) : M world string :=
  let base_name_no_ext := fst (OsPath.splitext filename) in
  let cleaned_audio_path :=
    OsPath.join cleaned_audio_folder (base_name_no_ext +:+ "_cleaned.wav") in
  let* found := path_exists cleaned_audio_path in
  let* _ :=
    (if negb found then
       let* '(data, rate) := call_sf_read sv file_path_original in
       let* data := (if 1 <? ndim sv data then of_outcome (mean_axis1 sv data)
                     else ret data) in
       let* reduced_noise_data := call_reduce_noise sv data rate in
       call_sf_write sv cleaned_audio_path reduced_noise_data rate
     else ret tt) in
  ret cleaned_audio_path.

(** Lines 138-153: which file goes to transcription.  [file_to_transcribe]
    is assigned last in the [try], so a failure leaves the original path. *)
Definition choose_file (sv : services) (a : args) (cleaned_audio_folder filename
    : string) : M world string :=
  let file_path_original := OsPath.join (audio_folder a) filename in
  if clean_noise a then
    try_except
      (clean_audio sv cleaned_audio_folder filename file_path_original)
      (fun e =>
         let* _ := print (MsgDenoiseFailed filename e) in
         ret file_path_original)
  else ret file_path_original.

(** Lines 158-176: what follows the transcription of one file. *)
Definition after_transcription (a : args) (s : option summarizer)
    (r : bool * string * string) (counts : nat * nat) : M world (nat * nat) :=
  let '(success, output_path, transcribed_text) := r in
  let '(success_count, failure_count) := counts in
  if success then
    let success_count := S success_count in
    if summarize a && negb (String.eqb transcribed_text "") then
      let* original_content := read_text output_path in
      let* summary := summarize_text transcribed_text s 512 in
      let* _ := write_text output_path (summarized_layout summary original_content) in
      ret (success_count, failure_count)
    else ret (success_count, failure_count)
  else ret (success_count, S failure_count).

(** The loop body, lines 137-176; [counts] is
    [(success_count, failure_count)]. *)
Definition process_file (sv : services) (a : args) (cleaned_audio_folder : string)
    (m : whisper) (s : option summarizer) (filename : string)
    (counts : nat * nat) : M world (nat * nat) :=
  let* file_to_transcribe := choose_file sv a cleaned_audio_folder filename in
  let* r := transcribe_audio m file_to_transcribe (output_folder a) (language a) in
  after_transcription a s r counts.

Definition main (sv : services) (a : args) : M world unit :=
  let device := if cuda_is_available sv then "cuda" else "cpu" in
  let* _ := print (MsgDevice (PyStr.upper device)) in
  let* _ := print (MsgLoadingWhisper (model_name (model a))) in
  let* m := call_load_model sv (model_name (model a)) device in
  let* _ := print MsgWhisperLoaded in
  let* s :=
    (if summarize a then
       let* _ := print MsgLoadingSummarizer in
       let* s := call_pipeline sv (if String.eqb device "cuda" then 0 else -1) in
       let* _ := print MsgSummarizerLoaded in
       ret (Some s)
     else ret None) in
  let* is_dir := isdir (audio_folder a) in
  if negb is_dir then print (MsgFolderNotFound (audio_folder a))
  else
    let* _ := makedirs (output_folder a) in
    let cleaned_audio_folder := OsPath.join (audio_folder a) "cleaned" in
    let* _ := (if clean_noise a then makedirs cleaned_audio_folder else ret tt) in
    let* entries := listdir (audio_folder a) in
    let audio_files := List.filter supported entries in
    match audio_files with
    | [] => print (MsgNoFiles (audio_folder a))
    | _ =>
        let* _ := print (MsgFound (length audio_files)) in
        let* '(success_count, failure_count) :=
          for_each (process_file sv a cleaned_audio_folder m s) audio_files (O, O) in
        let* _ := print MsgFinished in
        let* _ := print (MsgSucceeded success_count) in
        let* _ := print (MsgFailed failure_count) in
        print (MsgSavedIn (output_folder a))
    end.

(** ** Stub services and a small media folder, for concrete runs *)

Definition seconds_0 : spec_float := S754_zero false.
Definition seconds_1_5 : spec_float := S754_finite false 3 (-1).
Definition seconds_3 : spec_float := S754_finite false 3 0.

Definition stub_result : whisper_result :=
  {| res_text := Some " hello world";
     res_segments :=
       Some [ {| seg_start := Some seconds_0; seg_end := Some seconds_1_5;
                 seg_text := Some " hello" |};
              {| seg_start := Some seconds_1_5; seg_end := Some seconds_3;
                 seg_text := Some " world" |} ] |}.

Definition stub_whisper : whisper :=
  {| transcribe := fun _ _ _ _ => Ok stub_result |}.

Definition raising_whisper : whisper :=
  {| transcribe := fun _ _ _ _ => Raise (ServiceError "decoder crashed") |}.

Definition stub_summarizer : summarizer :=
  {| summarize_batch := fun _ inputs _ _ _ => Ok (map (fun _ => "S1") inputs) |}.

Definition stub_services : services :=
  {| audio := unit;
     cuda_is_available := false;
     load_model := fun _ _ _ => Ok stub_whisper;
     pipeline := fun _ _ _ _ => Ok stub_summarizer;
     sf_read := fun _ _ => Ok (tt, 16000);
     ndim := fun _ => 1;
     mean_axis1 := fun d => Ok d;
     reduce_noise := fun _ d _ => Ok d;
     sf_write := fun _ _ _ _ => Written |}.

(** The same services with a noise reducer that raises. *)
Definition noisy_services : services :=
  {| audio := unit;
     cuda_is_available := false;
     load_model := fun _ _ _ => Ok stub_whisper;
     pipeline := fun _ _ _ _ => Ok stub_summarizer;
     sf_read := fun _ _ => Ok (tt, 16000);
     ndim := fun _ => 1;
     mean_axis1 := fun d => Ok d;
     reduce_noise := fun _ _ _ => Raise (ServiceError "out of memory");
     sf_write := fun _ _ _ _ => Written |}.

(** The same services with a speech-recognition model that raises. *)
Definition deaf_services : services :=
  {| audio := unit;
     cuda_is_available := false;
     load_model := fun _ _ _ => Ok raising_whisper;
     pipeline := fun _ _ _ _ => Ok stub_summarizer;
     sf_read := fun _ _ => Ok (tt, 16000);
     ndim := fun _ => 1;
     mean_axis1 := fun d => Ok d;
     reduce_noise := fun _ d _ => Ok d;
     sf_write := fun _ _ _ _ => Written |}.

(** A folder [in] with one media file and one file that is not media. *)
Definition media_world : world :=
  {| fs := {[ "in" := Dir ["a.mp3"; "notes.txt"]; "in/a.mp3" := Binary ]};
     trace := [] |}.

Definition empty_world : world := {| fs := ∅; trace := [] |}.

Definition cli (clean sum : bool) : args :=
  {| audio_folder := "in"; output_folder := "out"; model := medium;
     language := "id"; clean_noise := clean; summarize := sum |}.

(** The world in which a later run of the program starts: the files stay,
    the history is new. *)
Definition next_run (w : world) : world := {| fs := fs w; trace := [] |}.

(** The plain artifact of the stub transcription. *)
Definition plain_artifact : string :=
  "[0.00s - 1.50s] hello" +:+ LF +:+ "[1.50s - 3.00s] world".

(** ** Vocabulary of the statements *)

(** [sep] occurs in [s]. *)
Definition occurs_in (sep s : string) : Prop :=
  ∃ before rest, s = before +:+ sep +:+ rest.

(** No two occurrences of [sep] in [s] overlap: a later one starts at or
    after the end of an earlier one. *)
Definition no_overlap (sep s : string) : Prop :=
  ∀ p1 r1 p2 r2,
    s = p1 +:+ sep +:+ r1 → s = p2 +:+ sep +:+ r2 →
    (String.length p1 < String.length p2)%nat →
    (String.length p1 + String.length sep <= String.length p2)%nat.

(** The text after the last place of [s] at which [sep] occurs, if any. *)
Fixpoint last_occurrence_rest (sep s : string) : option string :=
  match s with
  | EmptyString => if String.prefix sep s then Some EmptyString else None
  | String _ s' =>
      match last_occurrence_rest sep s' with
      | Some rest => Some rest
      | None =>
          if String.prefix sep s then Some (PyStr.drop (String.length sep) s)
          else None
      end
  end.

(** "Everything after the last occurrence of the marker (the whole file if
    the marker is absent)". *)
Definition after_last_occurrence (sep s : string) : string :=
  default s (last_occurrence_rest sep s).


(** An artifact in which two occurrences of the transcript marker overlap. *)
Definition overlapping_content : string :=
  "--- TRANSKRIPSI LENGKAP --- TRANSKRIPSI LENGKAP ---".

Definition overlapping_world : world :=
  set_node "out/a.txt" (File overlapping_content) media_world.

(** How [transcribe_audio] ends when its [try] body raised [e]: the message,
    and [False] with the locals as they were. *)
Definition failed_transcription (file_path out text : string) (e : exn) (w : world)
  : outcome (bool * string * string) * world :=
  (Ok (false, out, text), log (Print (MsgTranscribeFailed (OsPath.basename file_path) e)) w).

(** [main] in two parts: loading the models (lines 99-112), and the batch
    from the folder check on (lines 114-181). *)
Definition load_models (sv : services) (a : args) : M world (whisper * option summarizer) :=
  let device := if cuda_is_available sv then "cuda" else "cpu" in
  let* _ := print (MsgDevice (PyStr.upper device)) in
  let* _ := print (MsgLoadingWhisper (model_name (model a))) in
  let* m := call_load_model sv (model_name (model a)) device in
  let* _ := print MsgWhisperLoaded in
  let* s :=
    (if summarize a then
       let* _ := print MsgLoadingSummarizer in
       let* s := call_pipeline sv (if String.eqb device "cuda" then 0 else -1) in
       let* _ := print MsgSummarizerLoaded in
       ret (Some s)
     else ret None) in
  ret (m, s).

Definition run_batch (sv : services) (a : args) (m : whisper) (s : option summarizer)
  : M world unit :=
  let* is_dir := isdir (audio_folder a) in
  if negb is_dir then print (MsgFolderNotFound (audio_folder a))
  else
    let* _ := makedirs (output_folder a) in
    let cleaned_audio_folder := OsPath.join (audio_folder a) "cleaned" in
    let* _ := (if clean_noise a then makedirs cleaned_audio_folder else ret tt) in
    let* entries := listdir (audio_folder a) in
    let audio_files := List.filter supported entries in
    match audio_files with
    | [] => print (MsgNoFiles (audio_folder a))
    | _ =>
        let* _ := print (MsgFound (length audio_files)) in
        let* '(success_count, failure_count) :=
          for_each (process_file sv a cleaned_audio_folder m s) audio_files (O, O) in
        let* _ := print MsgFinished in
        let* _ := print (MsgSucceeded success_count) in
        let* _ := print (MsgFailed failure_count) in
        print (MsgSavedIn (output_folder a))
    end.

(** The events of the start-up: console messages and model loads. *)
Definition startup_event (ev : event) : bool :=
  match ev with
  | Print _ | LoadWhisper _ _ | LoadSummarizer _ => true
  | _ => false
  end.

(** [c] occurs in [s]. *)
Fixpoint has_char (c : ascii) (s : string) : bool :=
  match s with
  | EmptyString => false
  | String d s' => Ascii.eqb c d || has_char c s'
  end.

(** The path of the cleaned audio of a listed file (lines 143-144). *)
Definition cleaned_path_of (cleaned_audio_folder filename : string) : string :=
  OsPath.join cleaned_audio_folder
    (fst (OsPath.splitext filename) +:+ "_cleaned.wav").

(** A segment that has its three keys. *)
Definition segment_complete (seg : segment) : bool :=
  match seg_start seg, seg_end seg, seg_text seg with
  | Some _, Some _, Some _ => true
  | _, _, _ => false
  end.



(** A summarizer that raises. *)
Definition raising_summarizer : summarizer :=
  {| summarize_batch := fun _ _ _ _ _ => Raise (ServiceError "model overloaded") |}.

(** A result in which the second segment has no [end]. *)
Definition broken_result : whisper_result :=
  {| res_text := Some " hello world";
     res_segments :=
       Some [ {| seg_start := Some seconds_0; seg_end := Some seconds_1_5;
                 seg_text := Some " hello" |};
              {| seg_start := Some seconds_1_5; seg_end := None;
                 seg_text := Some " world" |} ] |}.

Definition broken_whisper : whisper :=
  {| transcribe := fun _ _ _ _ => Ok broken_result |}.

(** The media folder after a complete run without [--summarize]. *)
Definition transcribed_world : world :=
  set_node "out/a.txt" (File plain_artifact) (set_node "out" (Dir []) media_world).





(** The file system after [os.makedirs(path, exist_ok=True)] succeeded. *)
Definition with_directory (path : string) (files : gmap string node)
  : gmap string node :=
  match files !! path with
  | None => <[path := Dir []]> files
  | Some _ => files
  end.

(* ================================================================= *)
(** * Properties *)

(** ** Sanity checks of the primitives *)

Example format_2f_examples :
  format_2f seconds_0 = "0.00"
  ∧ format_2f seconds_1_5 = "1.50"
  ∧ format_2f (S754_finite false 3602879701896397 (-55)) = "0.10"
  ∧ format_2f (S754_finite true 1 (-3)) = "-0.12"
  ∧ format_2f (S754_finite false 3 (-3)) = "0.38"
  ∧ format_2f (S754_finite false 201 (-1)) = "100.50".
Proof. repeat split; reflexivity. Qed.

Example string_examples :
  PyStr.split_ws "  a bb  ccc " = ["a"; "bb"; "ccc"]
  ∧ PyStr.split "--" "a--b---c" = ["a"; "b"; "-c"]
  ∧ PyStr.split "--" "a--" = ["a"; ""]
  ∧ PyStr.strip "  a b  " = "a b"
  ∧ PyStr.endswith "x_cleaned" "_cleaned" = true
  ∧ PyStr.lower "AbC.MP3" = "abc.mp3".
Proof. repeat split; reflexivity. Qed.

Example path_examples :
  OsPath.join "in" "a.mp3" = "in/a.mp3"
  ∧ OsPath.join "in/" "a.mp3" = "in/a.mp3"
  ∧ OsPath.join "in" "/a.mp3" = "/a.mp3"
  ∧ OsPath.basename "in/cleaned/a_cleaned.wav" = "a_cleaned.wav"
  ∧ OsPath.splitext "a.tar.gz" = ("a.tar", ".gz")
  ∧ OsPath.splitext ".hidden" = (".hidden", "")
  ∧ output_path_of "in/cleaned/a_cleaned.wav" "out" = "out/a.txt"
  ∧ List.filter supported ["a.MP3"; "notes.txt"; "b.mkv"; "mp3"] = ["a.MP3"; "b.mkv"].
Proof. repeat split; reflexivity. Qed.

Example chunks_examples :
  chunks "  a bb  ccc d e " 2 = Ok ["a bb"; "ccc d"; "e"]
  ∧ chunks "" 512 = Ok []
  ∧ chunks "a b" 0 = Raise ValueError
  ∧ chunks "a b" (-1) = Ok [].
Proof. repeat split; reflexivity. Qed.

(** The plain artifact of the stub transcription, as the transcription step
    writes it. *)
Example plain_artifact_written :
  plain_artifact = "[0.00s - 1.50s] hello" +:+ LF +:+ "[1.50s - 3.00s] world"
  ∧ transcribe_audio stub_whisper "in/a.mp3" "out" "id" media_world
    = (Ok (true, "out/a.txt", " hello world"),
       set_node "out/a.txt" (File plain_artifact)
         (log (Transcribe "in/a.mp3" "id") media_world)).
Proof. split; [reflexivity|]. vm_compute. reflexivity. Qed.

(** ** Strings *)

Module PyStrFacts.
Import PyStr.

Lemma str_app_nil_l (s : string) : "" +:+ s = s.
Proof. reflexivity. Qed.

Lemma str_app_cons (c : ascii) (a b : string) :
  String c a +:+ b = String c (a +:+ b).
Proof. reflexivity. Qed.

Lemma str_app_nil_r (s : string) : s +:+ "" = s.
Proof. induction s as [|c s IH]; [reflexivity|]. by rewrite str_app_cons, IH. Qed.

Lemma str_app_assoc (a b c : string) : (a +:+ b) +:+ c = a +:+ (b +:+ c).
Proof.
  induction a as [|x a IH]; [reflexivity|].
  by rewrite !str_app_cons, IH.
Qed.

Lemma str_app_length (a b : string) :
  String.length (a +:+ b) = (String.length a + String.length b)%nat.
Proof.
  induction a as [|x a IH]; [reflexivity|].
  rewrite str_app_cons. simpl. by rewrite IH.
Qed.

Lemma no_space_app (a b : string) :
  no_space (a +:+ b) = no_space a && no_space b.
Proof.
  induction a as [|x a IH]; [reflexivity|].
  rewrite str_app_cons. simpl. rewrite IH. by rewrite andb_assoc.
Qed.

Lemma flush_word (cur : string) :
  no_space cur = true → Forall is_word (flush cur).
Proof.
  intros H. destruct cur as [|c cur]; simpl; [constructor|].
  repeat constructor; done.
Qed.

Lemma split_ws_from_words (s cur : string) :
  no_space cur = true → Forall is_word (split_ws_from cur s).
Proof.
  revert cur. induction s as [|c s IH]; intros cur Hcur; simpl.
  - by apply flush_word.
  - destruct (is_space c) eqn:Hc.
    + apply Forall_app. split; [by apply flush_word | by apply IH].
    + apply IH. rewrite no_space_app, Hcur. simpl. by rewrite Hc.
Qed.

Lemma split_ws_words (s : string) : Forall is_word (split_ws s).
Proof. by apply split_ws_from_words. Qed.

(** A separating space closes the word being read. *)
Lemma split_ws_from_space (a b cur : string) :
  split_ws_from cur (a +:+ " " +:+ b) = split_ws_from cur a ++ split_ws b.
Proof.
  revert cur. induction a as [|c a IH]; intros cur.
  - reflexivity.
  - rewrite str_app_cons. simpl. destruct (is_space c).
    + by rewrite IH, (assoc (++)).
    + apply IH.
Qed.

Lemma split_ws_from_no_space (w cur : string) :
  no_space w = true → split_ws_from cur w = flush (cur +:+ w).
Proof.
  revert cur. induction w as [|c w IH]; intros cur H; simpl in *.
  - by rewrite str_app_nil_r.
  - apply andb_prop in H as [Hc Hw]. apply negb_true_iff in Hc. rewrite Hc.
    rewrite IH by done. by rewrite str_app_assoc.
Qed.

Lemma split_ws_word (w : string) : is_word w → split_ws w = [w].
Proof.
  intros [Hne Hw]. unfold split_ws. rewrite split_ws_from_no_space by done.
  rewrite str_app_nil_l. by destruct w.
Qed.

(** Splitting a space-joined list splits each item. *)
Lemma split_ws_join (xs : list string) :
  split_ws (join " " xs) = concat (map split_ws xs).
Proof.
  induction xs as [|x [|y rest] IH].
  - reflexivity.
  - simpl. by rewrite List.app_nil_r.
  - change (join " " (x :: y :: rest)) with (x +:+ " " +:+ join " " (y :: rest)).
    unfold split_ws at 1. rewrite split_ws_from_space. by rewrite IH.
Qed.

Lemma concat_split_ws_words (ws : list string) :
  Forall is_word ws → concat (map split_ws ws) = ws.
Proof.
  induction 1 as [|w ws Hw _ IH]; [reflexivity|].
  simpl. by rewrite split_ws_word, IH.
Qed.

(** Joining words with spaces and splitting again gives the words back. *)
Lemma split_ws_join_words (ws : list string) :
  Forall is_word ws → split_ws (join " " ws) = ws.
Proof. intros H. by rewrite split_ws_join, concat_split_ws_words. Qed.

Lemma join_cons (sep x : string) (l : list string) :
  l ≠ [] → join sep (x :: l) = x +:+ sep +:+ join sep l.
Proof. by destruct l. Qed.

Lemma join_app (sep : string) (xs ys : list string) :
  xs ≠ [] → ys ≠ [] →
  join sep (xs ++ ys) = join sep xs +:+ sep +:+ join sep ys.
Proof.
  intros Hxs Hys. induction xs as [|x [|x' xs] IH]; [done| |].
  - by apply join_cons.
  - change ((x :: x' :: xs) ++ ys) with (x :: (x' :: xs) ++ ys).
    rewrite join_cons by done. rewrite IH by done.
    rewrite (join_cons sep x (x' :: xs)) by done.
    by rewrite !str_app_assoc.
Qed.

(** Joining the joined groups is joining all their items, provided no group
    is empty. *)
Lemma join_concat (sep : string) (gs : list (list string)) :
  Forall (fun g => g ≠ []) gs →
  join sep (map (join sep) gs) = join sep (concat gs).
Proof.
  induction gs as [|g [|g' gs] IH]; intros Hgs; [done| |].
  - cbn. by rewrite List.app_nil_r.
  - apply Forall_cons in Hgs as [Hg Hrest].
    change (map (join sep) (g :: g' :: gs))
      with (join sep g :: map (join sep) (g' :: gs)).
    rewrite join_cons by done. rewrite IH by done.
    change (concat (g :: g' :: gs)) with (g ++ concat (g' :: gs)).
    rewrite join_app; [done|done|].
    apply Forall_cons in Hrest as [Hg' _]. cbn. by destruct g'.
Qed.

End PyStrFacts.

(** ** Splitting at a separator *)

Module SplitFacts.
Import PyStr PyStrFacts.

Lemma prefix_app (sep s : string) :
  String.prefix sep s = true → s = sep +:+ drop (String.length sep) s.
Proof.
  revert s. induction sep as [|c sep IH]; intros s H.
  - reflexivity.
  - destruct s as [|d s]; [discriminate|]. simpl in H.
    destruct (ascii_dec c d) as [->|]; [|discriminate].
    rewrite str_app_cons. simpl. f_equal. by apply IH.
Qed.

Lemma prefix_of_app (sep rest : string) : String.prefix sep (sep +:+ rest) = true.
Proof.
  induction sep as [|c sep IH]; [by destruct rest|].
  rewrite str_app_cons. simpl. by destruct (ascii_dec c c).
Qed.

Lemma drop_app (a b : string) : drop (String.length a) (a +:+ b) = b.
Proof. induction a as [|c a IH]; [by destruct b|]. by rewrite str_app_cons. Qed.

Lemma partition_Some (sep s a b : string) :
  partition sep s = Some (a, b) → s = a +:+ sep +:+ b.
Proof.
  revert a b. induction s as [|c s IH]; intros a b.
  - cbn [partition]. destruct (String.prefix sep "") eqn:Hp; [|intros [=]].
    intros [= <- <-]. by apply prefix_app in Hp.
  - cbn [partition]. destruct (String.prefix sep (String c s)) eqn:Hp.
    + intros [= <- <-]. by apply prefix_app in Hp.
    + destruct (partition sep s) as [[a' b']|]; [|intros [=]].
      intros [= <- <-]. rewrite str_app_cons. f_equal. by apply IH.
Qed.

Lemma partition_unfold (sep s : string) :
  partition sep s =
    if String.prefix sep s then Some ("", drop (String.length sep) s)
    else match s with
         | "" => None
         | String c s' =>
             match partition sep s' with
             | Some (a, b) => Some (String c a, b)
             | None => None
             end
         end.
Proof. by destruct s. Qed.

Lemma partition_None (sep s : string) :
  partition sep s = None → ¬ occurs_in sep s.
Proof.
  intros Hnone (a & b & ->). revert Hnone.
  induction a as [|c a IH].
  - by rewrite str_app_nil_l, partition_unfold, prefix_of_app.
  - rewrite str_app_cons. cbn [partition].
    destruct (String.prefix sep _); [done|].
    destruct (partition sep (a +:+ sep +:+ b)) as [[a' b']|]; [done|].
    intros _. by apply IH.
Qed.

Lemma partition_shorter (sep s a b : string) :
  sep ≠ "" → partition sep s = Some (a, b) →
  (String.length b < String.length s)%nat.
Proof.
  intros Hsep H%partition_Some. subst s. rewrite !str_app_length.
  destruct sep; [done|]. simpl. lia.
Qed.

Lemma split_fuel_nonempty (fuel : nat) (sep s : string) : split_fuel fuel sep s ≠ [].
Proof. destruct fuel; simpl; [done|]. by destruct (partition sep s) as [[a b]|]. Qed.

Lemma last_item_cons (a : string) (l : list string) :
  l ≠ [] → last_item (a :: l) = last_item l.
Proof. by destruct l. Qed.

(** The last piece follows an occurrence of the separator, or is the whole
    string when there is none; no occurrence lies inside it. *)
Lemma split_fuel_last (fuel : nat) (sep s : string) :
  sep ≠ "" → (String.length s <= fuel)%nat →
  let rest := last_item (split_fuel fuel sep s) in
  (rest = s ∨ ∃ before, s = before +:+ sep +:+ rest) ∧ ¬ occurs_in sep rest.
Proof.
  intros Hsep. revert s. induction fuel as [|fuel IH]; intros s Hlen.
  - destruct s; [|simpl in Hlen; lia]. cbn. split; [by left|].
    intros (a & b & Heq). destruct a, sep; done.
  - cbn [split_fuel]. destruct (partition sep s) as [[a b]|] eqn:Hp.
    + rewrite last_item_cons by apply split_fuel_nonempty.
      pose proof (partition_shorter _ _ _ _ Hsep Hp) as Hb.
      apply partition_Some in Hp as ->.
      destruct (IH b ltac:(lia)) as [[Hall|[p Hocc]] Hnone]; cbn zeta in *.
      * split; [|done]. right. exists a. by rewrite Hall.
      * split; [|done]. right. exists (a +:+ sep +:+ p).
        rewrite Hocc at 1. by rewrite !str_app_assoc.
    + cbn. split; [by left|]. by apply partition_None.
Qed.

Lemma split_last (sep s : string) :
  sep ≠ "" →
  let rest := last_item (split sep s) in
  (rest = s ∨ ∃ before, s = before +:+ sep +:+ rest) ∧ ¬ occurs_in sep rest.
Proof. intros Hsep. by apply split_fuel_last. Qed.

Lemma split_absent (sep s : string) :
  ¬ occurs_in sep s → last_item (split sep s) = s.
Proof.
  intros Habs. unfold split. destruct (String.length s); [done|].
  cbn [split_fuel]. destruct (partition sep s) as [[a b]|] eqn:Hp; [|done].
  destruct Habs. apply partition_Some in Hp. by exists a, b.
Qed.

(** Two ways to cut one string: the shorter head is a prefix of the
    longer one. *)
Lemma app_eq_app (a b c d : string) :
  a +:+ b = c +:+ d → (String.length a <= String.length c)%nat →
  ∃ q, c = a +:+ q ∧ b = q +:+ d.
Proof.
  revert c. induction a as [|x a IH]; intros c Heq Hlen.
  - exists c. by rewrite !str_app_nil_l in *.
  - destruct c as [|y c]; [simpl in Hlen; lia|].
    rewrite !str_app_cons in Heq. injection Heq as -> Heq.
    destruct (IH c Heq) as (q & -> & ->); [simpl in Hlen; lia|].
    by exists q.
Qed.

(** [last_occurrence_rest] finds the occurrence that starts last. *)
Lemma last_occurrence_rest_Some (sep s rest : string) :
  last_occurrence_rest sep s = Some rest →
  ∃ before, s = before +:+ sep +:+ rest
    ∧ ∀ p r, s = p +:+ sep +:+ r → (String.length p <= String.length before)%nat.
Proof.
  revert rest. induction s as [|c s IH]; intros rest; cbn [last_occurrence_rest].
  - destruct (String.prefix sep "") eqn:Hp; [|done]. intros [= <-].
    exists "". split; [by apply prefix_app in Hp; destruct sep|].
    intros p r Heq. by destruct p.
  - destruct (last_occurrence_rest sep s) as [rest'|] eqn:Hrec.
    + intros [= <-]. destruct (IH _ eq_refl) as (before & -> & Hmax).
      exists (String c before). split; [done|].
      intros p r Heq. destruct p as [|x p]; [simpl; lia|].
      rewrite str_app_cons in Heq. injection Heq as -> Heq.
      apply Hmax in Heq. simpl. lia.
    + destruct (String.prefix sep (String c s)) eqn:Hp; [|done].
      intros [= <-]. exists "". split; [by apply prefix_app in Hp|].
      intros p r Heq. destruct p as [|x p]; [done|].
      rewrite str_app_cons in Heq. injection Heq as -> Heq.
      exfalso. clear IH Hp. revert p r Heq Hrec. generalize s. clear.
      intros s. induction s as [|d s IH]; intros p r Heq Hrec.
      * destruct p, sep; try done.
      * cbn [last_occurrence_rest] in Hrec.
        destruct (last_occurrence_rest sep s) eqn:Hs; [done|].
        destruct p as [|y p].
        -- rewrite str_app_nil_l in Heq.
           rewrite Heq, prefix_of_app in Hrec. done.
        -- rewrite str_app_cons in Heq. injection Heq as -> Heq.
           by eapply IH.
Qed.

Lemma last_occurrence_rest_None (sep s : string) :
  last_occurrence_rest sep s = None → ¬ occurs_in sep s.
Proof.
  intros Hnone (a & b & ->). revert Hnone. induction a as [|c a IH].
  - rewrite str_app_nil_l. destruct (sep +:+ b) as [|d t] eqn:Heq;
      cbn [last_occurrence_rest]; rewrite <- ?Heq, ?prefix_of_app; [done|].
    by destruct (last_occurrence_rest sep t).
  - rewrite str_app_cons. cbn [last_occurrence_rest].
    destruct (last_occurrence_rest sep (a +:+ sep +:+ b)); [done|].
    intros _. by apply IH.
Qed.

(** Where occurrences do not overlap, the last piece of [split] is the
    text after the last occurrence. *)
Lemma split_last_no_overlap (sep s : string) :
  sep ≠ "" → no_overlap sep s →
  last_item (split sep s) = after_last_occurrence sep s.
Proof.
  intros Hsep Hno. unfold after_last_occurrence.
  destruct (last_occurrence_rest sep s) as [rest'|] eqn:Hlast; cbn [default].
  - apply last_occurrence_rest_Some in Hlast as (p' & Hs' & Hmax).
    destruct (split_last sep s Hsep) as [[Hall|[p Hs]] Hnone]; cbn zeta in *.
    + destruct Hnone. rewrite Hall. by exists p', rest'.
    + pose proof (Hmax _ _ Hs) as Hle.
      destruct (decide (String.length p = String.length p')) as [Heq|Hne].
      * rewrite Hs' in Hs at 1.
        destruct (app_eq_app _ _ _ _ Hs ltac:(lia)) as (q & Hq & Hrest).
        assert (q = "") as ->.
        { apply (f_equal String.length) in Hq. rewrite str_app_length in Hq.
          destruct q; [done|]. simpl in Hq. lia. }
        rewrite str_app_nil_l in Hrest. symmetry.
        by apply (inj (String.app sep)) in Hrest.
      * pose proof (Hno _ _ _ _ Hs Hs' ltac:(lia)) as Hfar.
        assert (Hcut : (p +:+ sep) +:+ last_item (split sep s) = p' +:+ sep +:+ rest').
        { rewrite str_app_assoc. by rewrite <- Hs. }
        destruct (app_eq_app _ _ _ _ Hcut) as (q & Hq & Hrest).
        { rewrite str_app_length. lia. }
        destruct Hnone. by exists q, rest'.
  - apply split_absent. by apply last_occurrence_rest_None.
Qed.

(** [partition] cuts at the occurrence that starts first. *)
Lemma partition_first (sep s a b : string) :
  partition sep s = Some (a, b) →
  ∀ p r, s = p +:+ sep +:+ r → (String.length a <= String.length p)%nat.
Proof.
  revert a b. induction s as [|c s IH]; intros a b; rewrite partition_unfold.
  - destruct (String.prefix sep ""); [|intros [=]].
    intros [= <- <-] p r _. simpl. lia.
  - destruct (String.prefix sep (String c s)) eqn:Hp.
    + intros [= <- <-] p r _. simpl. lia.
    + destruct (partition sep s) as [[a' b']|] eqn:Hrec; [|intros [=]].
      intros [= <- <-] p r Heq. destruct p as [|x p].
      * rewrite str_app_nil_l in Heq. by rewrite Heq, prefix_of_app in Hp.
      * rewrite str_app_cons in Heq. injection Heq as -> Heq.
        pose proof (IH _ _ eq_refl _ _ Heq). simpl. lia.
Qed.

(** A string in which the first and the last occurrence coincide has a
    single occurrence, so nothing overlaps. *)
Lemma single_occurrence_no_overlap (sep s a b rest : string) :
  partition sep s = Some (a, b) →
  last_occurrence_rest sep s = Some rest →
  String.length b = String.length rest →
  no_overlap sep s.
Proof.
  intros Hfirst Hlast Hlen p1 r1 p2 r2 H1 H2 Hlt.
  pose proof (partition_first _ _ _ _ Hfirst _ _ H1) as Hlo.
  apply partition_Some in Hfirst.
  apply last_occurrence_rest_Some in Hlast as (before & Hs & Hmax).
  pose proof (Hmax _ _ H2) as Hhi.
  assert (String.length (a +:+ sep +:+ b)
          = String.length (before +:+ sep +:+ rest)) as Hsame by congruence.
  rewrite !str_app_length in Hsame. lia.
Qed.

Lemma no_occurrence_no_overlap (sep s : string) :
  ¬ occurs_in sep s → no_overlap sep s.
Proof. intros Habs p1 r1 p2 r2 H1 _ _. destruct Habs. by exists p1, r1. Qed.

End SplitFacts.

(** ** Chunking *)

Section Chunking.
Context {A : Type}.
Implicit Types l : list A.

(** A slice of [L] items from a non-negative index. *)
Lemma py_slice_take_drop l (i L : Z) :
  0 <= i → 0 < L →
  py_slice l i (i + L) = take (Z.to_nat L) (drop (Z.to_nat i) l).
Proof.
  intros Hi HL. unfold py_slice, clamp_index.
  destruct (Z.ltb_spec i 0); [lia|].
  destruct (Z.ltb_spec (i + L) 0); [lia|].
  set (n := Z.of_nat (length l)).
  destruct (Z.le_gt_cases n i) as [Hge|Hlt].
  - rewrite (drop_ge l (Z.to_nat i)) by lia.
    rewrite (drop_ge l (Z.to_nat (i `min` n))) by lia.
    by rewrite !take_nil.
  - replace (i `min` n) with i by lia.
    destruct (Z.le_gt_cases (i + L) n) as [Hfit|Hover].
    + f_equal. lia.
    + rewrite !take_ge; [done | rewrite length_drop; lia..].
Qed.

(** Consecutive groups of [L] items, put back together. *)
Lemma concat_groups l (L m : nat) :
  concat (map (fun k => take L (drop (k * L) l)) (seq 0 m)) = take (m * L) l.
Proof.
  induction m as [|m IH]; [by rewrite take_0|].
  rewrite seq_S, map_app, concat_app, IH. simpl.
  rewrite List.app_nil_r, take_take_drop. f_equal. lia.
Qed.

End Chunking.

Lemma range_count_covers (n L : Z) :
  0 <= n → 0 < L → n <= (n + L - 1) / L * L.
Proof.
  intros Hn HL.
  pose proof (Z.div_mod (n + L - 1) L ltac:(lia)) as Hdm.
  pose proof (Z.mod_pos_bound (n + L - 1) L HL). lia.
Qed.

(** The last group starts inside the list. *)
Lemma range_count_last_starts (n L : Z) :
  0 <= n → 0 < L → ((n + L - 1) / L - 1) * L < n.
Proof.
  intros Hn HL.
  pose proof (Z.div_mod (n + L - 1) L ltac:(lia)) as Hdm.
  pose proof (Z.mod_pos_bound (n + L - 1) L HL).
  rewrite Z.mul_sub_distr_r, (Z.mul_comm _ L). lia.
Qed.

(** What [chunks] returns for a positive limit: the [k]-th chunk joins the
    [k]-th group of at most [L] words. *)
Lemma chunks_groups (T : string) (L : Z) :
  0 < L →
  chunks T L =
    Ok (map (fun k => PyStr.join " "
                        (take (Z.to_nat L) (drop (k * Z.to_nat L) (PyStr.split_ws T))))
            (seq 0 (Z.to_nat ((Z.of_nat (length (PyStr.split_ws T)) + L - 1) / L)))).
Proof.
  intros HL. unfold chunks, py_range.
  destruct (Z.eqb_spec L 0); [lia|].
  destruct (Z.ltb_spec 0 L); [|lia].
  rewrite Z.sub_0_r. f_equal. rewrite map_map. apply map_ext_in. intros k _.
  rewrite py_slice_take_drop by lia. do 3 f_equal. lia.
Qed.

(** C6. For every text [T] and every limit [L > 0], [chunks] returns a
    sequence of chunks whose concatenation with single spaces is the words
    of [T] joined with single spaces, so that it has exactly the word
    sequence of [T]; every chunk has at most [L] words; and the empty text
    gives the empty sequence. *)
Theorem chunks_reconstruct_bounded (T : string) (L : Z) :
  0 < L →
  ∃ cs, chunks T L = Ok cs
        ∧ PyStr.join " " cs = PyStr.join " " (PyStr.split_ws T)
        ∧ PyStr.split_ws (PyStr.join " " cs) = PyStr.split_ws T
        ∧ Forall (fun c => Z.of_nat (length (PyStr.split_ws c)) <= L) cs
        ∧ (T = "" → cs = []).
Proof.
  intros HL. eexists. split; [by apply chunks_groups|].
  pose proof (PyStrFacts.split_ws_words T) as Hwords.
  set (ws := PyStr.split_ws T) in *.
  set (m := Z.to_nat ((Z.of_nat (length ws) + L - 1) / L)).
  assert (Hgroup : ∀ k, Forall PyStr.is_word (take (Z.to_nat L) (drop (k * Z.to_nat L) ws))).
  { intros k. by apply Forall_take, Forall_drop. }
  assert (Hcover : take (m * Z.to_nat L) ws = ws).
  { apply take_ge.
    pose proof (range_count_covers (Z.of_nat (length ws)) L ltac:(lia) HL).
    subst m. nia. }
  assert (Hjoin : PyStr.join " "
            (map (fun k => PyStr.join " " (take (Z.to_nat L) (drop (k * Z.to_nat L) ws)))
                 (seq 0 m))
          = PyStr.join " " ws).
  { rewrite <- (map_map (fun k => take (Z.to_nat L) (drop (k * Z.to_nat L) ws))
                        (PyStr.join " ")).
    rewrite PyStrFacts.join_concat, concat_groups, Hcover; [done|].
    apply Forall_map, Forall_forall. intros k Hk%elem_of_seq. cbn.
    pose proof (range_count_last_starts (Z.of_nat (length ws)) L ltac:(lia) HL) as Hlast.
    intros Hnil%(f_equal length). rewrite length_take, length_drop in Hnil.
    cbn in Hnil. subst m. nia. }
  split; [exact Hjoin|]. split; [|split].
  - rewrite Hjoin. by apply PyStrFacts.split_ws_join_words.
  - apply Forall_map, Forall_forall. intros k _. simpl.
    rewrite PyStrFacts.split_ws_join_words by done.
    rewrite length_take. lia.
  - intros ->. subst m ws. simpl. by rewrite Z.div_small by lia.
Qed.

Lemma chunks_reconstruct_bounded_witness :
  0 < 2 ∧
  ∃ cs, chunks "  a bb  ccc d e " 2 = Ok cs
        ∧ PyStr.join " " cs = PyStr.join " " (PyStr.split_ws "  a bb  ccc d e ")
        ∧ PyStr.split_ws (PyStr.join " " cs) = PyStr.split_ws "  a bb  ccc d e "
        ∧ Forall (fun c => Z.of_nat (length (PyStr.split_ws c)) <= 2) cs
        ∧ ("  a bb  ccc d e " = "" → cs = []).
Proof.
  split; [lia|]. apply (chunks_reconstruct_bounded "  a bb  ccc d e " 2). lia.
Defined.

(** ** The transcription step, case by case *)

Lemma transcribe_audio_cases (m : whisper) (file_path folder lang : string) (w : world) :
  let out := output_path_of file_path folder in
  transcribe_audio m file_path folder lang w =
    match fs w !! out with
    | Some (File content) =>
        (Ok (true, out,
             PyStr.strip (PyStr.last_item (PyStr.split TRANSCRIPT_MARKER content))), w)
    | Some Binary => failed_transcription file_path out "" ValueError w
    | Some Denied => failed_transcription file_path out "" (PermissionError out) w
    | Some (Dir _) => failed_transcription file_path out "" (IsADirectoryError out) w
    | None =>
        let w1 := log (Transcribe file_path lang) w in
        match transcribe m w1 file_path lang false with
        | Raise e => failed_transcription file_path out "" e w1
        | Ok result =>
            let text := default "" (res_text result) in
            match format_segments (default [] (res_segments result)) with
            | Raise e => failed_transcription file_path out text e w1
            | Ok lines => (Ok (true, out, text), set_node out (File (PyStr.join LF lines)) w1)
            end
        end
    end.
Proof.
  intros out. subst out. unfold transcribe_audio.
  generalize (output_path_of file_path folder) as out. intros out.
  unfold with_locals, try_except, bind, lift, var, assign,
    path_exists, read_text, call_transcribe, write_text, of_outcome, ret,
    failed_transcription, print.
  cbn -[lookup].
  destruct (fs w !! out) as [[c| | |es]|] eqn:Hout; cbn -[lookup];
    rewrite ?Hout; cbn -[lookup]; try done.
  destruct (transcribe m _ file_path lang false) as [result|e]; cbn -[lookup];
    [|done].
  destruct (format_segments _) as [lines|e]; cbn -[lookup]; rewrite ?Hout; done.
Qed.

Lemma transcribe_audio_returns (m : whisper) (file_path folder lang : string) (w : world) :
  ∃ ok text w',
    transcribe_audio m file_path folder lang w
    = (Ok (ok, output_path_of file_path folder, text), w').
Proof.
  rewrite transcribe_audio_cases. unfold failed_transcription.
  destruct (fs w !! _) as [[c| | |es]|]; eauto.
  cbn zeta. destruct (transcribe m _ _ _ _) as [r|e]; eauto.
  destruct (format_segments _) as [lines|e]; eauto.
Qed.

(** After a successful transcription step the artifact is a text file. *)
Lemma transcribe_audio_success (m : whisper) (file_path folder lang : string)
    (w w' : world) (out text : string) :
  transcribe_audio m file_path folder lang w = (Ok (true, out, text), w') →
  out = output_path_of file_path folder ∧ ∃ content, fs w' !! out = Some (File content).
Proof.
  rewrite transcribe_audio_cases. unfold failed_transcription.
  destruct (fs w !! _) as [[c| | |es]|] eqn:Hout; try (intros [= <- <-]; fail).
  - intros [= <- <- <-]. eauto.
  - cbn zeta. destruct (transcribe m _ _ _ _) as [r|e]; [|by intros [= <- <-]].
    destruct (format_segments _) as [lines|e]; [|by intros [= <- <-]].
    intros [= <- <- <-]. split; [done|]. eexists. apply lookup_insert_eq.
Qed.

(** A failed transcription step leaves every file as it was. *)
Lemma transcribe_audio_failure (m : whisper) (file_path folder lang : string)
    (w w' : world) (out text : string) :
  transcribe_audio m file_path folder lang w = (Ok (false, out, text), w') →
  fs w' = fs w.
Proof.
  rewrite transcribe_audio_cases. unfold failed_transcription.
  destruct (fs w !! _) as [[c| | |es]|] eqn:Hout; try (by intros [= <- <- <-]).
  cbn zeta. destruct (transcribe m _ _ _ _) as [r|e]; [|by intros [= <- <- <-]].
  destruct (format_segments _) as [lines|e]; by intros [= <- <- <-].
Qed.

(** ** The summary aggregator, case by case *)

Lemma chunks_512 (text : string) : ∃ cs, chunks text 512 = Ok cs.
Proof. rewrite chunks_groups by lia. eauto. Qed.

Lemma summarize_text_cases (text : string) (s : summarizer) (cs : list string)
    (w : world) :
  chunks text 512 = Ok cs →
  summarize_text text (Some s) 512 w =
    let w1 := log (Summarize cs) (log (Print MsgSummarizing) w) in
    match summarize_batch s w1 cs 150 30 false with
    | Ok summaries => (Ok (PyStr.join " " summaries), log (Print MsgSummaryDone) w1)
    | Raise e => (Ok SUMMARY_FAILED, log (Print (MsgSummaryFailed e)) w1)
    end.
Proof.
  intros Hcs.
  unfold summarize_text, try_except, bind, print, of_outcome, call_summarizer, ret.
  rewrite Hcs. cbn zeta. by destruct (summarize_batch s _ cs 150 30 false).
Qed.

(** [summarize_text] never raises and never touches a file. *)
Lemma summarize_text_returns (text : string) (s : option summarizer) (L : Z) (w : world) :
  ∃ summary w', summarize_text text s L w = (Ok summary, w') ∧ fs w' = fs w.
Proof.
  unfold summarize_text, try_except, bind, print, of_outcome, call_summarizer, ret.
  destruct (chunks text L) as [cs|e]; [|eauto].
  destruct s as [s|]; [|eauto].
  destruct (summarize_batch s _ cs 150 30 false); eauto.
Qed.

(** ** The loop body *)

Lemma choose_file_returns (sv : services) (a : args) (cf filename : string) (w : world) :
  ∃ file w', choose_file sv a cf filename w = (Ok file, w').
Proof.
  unfold choose_file. destruct (clean_noise a); [|by eexists _, _].
  unfold try_except, bind, print, ret.
  destruct (clean_audio sv cf filename _ w) as [[file|e] w']; eauto.
Qed.

(** What follows a transcription step that really ran: one counter goes up
    by one and nothing raises. *)
Lemma after_transcription_counts (a : args) (s : option summarizer) (m : whisper)
    (file folder lang : string) (r : bool * string * string) (sc fc : nat)
    (w0 w1 : world) :
  transcribe_audio m file folder lang w0 = (Ok r, w1) →
  ∃ w2, after_transcription a s r (sc, fc) w1
        = (Ok (if fst (fst r) then (S sc, fc) else (sc, S fc)), w2).
Proof.
  destruct r as [[[|] out] text]; intros Hr; cbn [after_transcription fst];
    [|by eexists].
  destruct (summarize a && negb (text =? "")%string); [|by eexists].
  apply transcribe_audio_success in Hr as [_ [content Hout]].
  unfold bind, read_text, write_text, ret. rewrite Hout.
  destruct (summarize_text_returns text s 512 w1) as (summary & w2 & -> & Hfs).
  rewrite Hfs, Hout. by eexists.
Qed.

Lemma process_file_counts (sv : services) (a : args) (cf : string) (m : whisper)
    (s : option summarizer) (filename : string) (sc fc : nat) (w : world) :
  ∃ w', process_file sv a cf m s filename (sc, fc) w = (Ok (S sc, fc), w')
        ∨ process_file sv a cf m s filename (sc, fc) w = (Ok (sc, S fc), w').
Proof.
  unfold process_file, bind.
  destruct (choose_file_returns sv a cf filename w) as (file & w0 & ->).
  destruct (transcribe_audio_returns m file (output_folder a) (language a) w0)
    as (ok & text & w1 & Hr).
  rewrite Hr.
  destruct (after_transcription_counts a s m _ _ _ _ sc fc _ _ Hr) as [w2 ->].
  exists w2. destruct ok; auto.
Qed.

Lemma for_each_process_file_counts (sv : services) (a : args) (cf : string)
    (m : whisper) (s : option summarizer) (files : list string) (sc fc : nat)
    (w : world) :
  ∃ sc' fc' w',
    for_each (process_file sv a cf m s) files (sc, fc) w = (Ok (sc', fc'), w')
    ∧ (sc <= sc')%nat ∧ (fc <= fc')%nat
    ∧ (sc' + fc' = sc + fc + length files)%nat.
Proof.
  revert sc fc w. induction files as [|f files IH]; intros sc fc w.
  - exists sc, fc, w. cbn. repeat split; lia.
  - cbn [for_each]. unfold bind at 1.
    destruct (process_file_counts sv a cf m s f sc fc w) as [w1 [-> | ->]].
    + destruct (IH (S sc) fc w1) as (sc' & fc' & w' & -> & ? & ? & ?).
      exists sc', fc', w'. cbn [length]. repeat split; lia.
    + destruct (IH sc (S fc) w1) as (sc' & fc' & w' & -> & ? & ? & ?).
      exists sc', fc', w'. cbn [length]. repeat split; lia.
Qed.

(** ** The transcription step at its boundary *)

(** C8. [transcribe_audio] is total at its boundary: for every input it
    returns a (success, output path, text) triple and never raises; when the
    artifact exists but reading it raises [e], the triple is
    [(False, path, "")], no file changes, and the only event is the failure
    message, so the speech-recognition model is not invoked. *)
Theorem transcribe_audio_total (m : whisper) (file_path folder lang : string)
    (w : world) :
  let out := output_path_of file_path folder in
  ∃ ok text w',
    transcribe_audio m file_path folder lang w = (Ok (ok, out, text), w')
    ∧ ∀ e, is_Some (fs w !! out) → fst (read_text out w) = Raise e →
        ok = false ∧ text = "" ∧ fs w' = fs w
        ∧ trace w' = trace w
                     ++ [Print (MsgTranscribeFailed (OsPath.basename file_path) e)].
Proof.
  intros out. rewrite transcribe_audio_cases. fold out.
  unfold failed_transcription, read_text.
  destruct (fs w !! out) as [[c| | |es]|] eqn:Hout.
  - eexists _, _, _. split; [done|]. intros e _ [=].
  - eexists _, _, _. split; [done|]. by intros e _ [= <-].
  - eexists _, _, _. split; [done|]. by intros e _ [= <-].
  - eexists _, _, _. split; [done|]. by intros e _ [= <-].
  - cbn zeta. destruct (transcribe m _ _ _ _) as [r|e'].
    + destruct (format_segments _) as [lines|e'];
        (eexists _, _, _; split; [done|]; by intros e [? [=]]).
    + eexists _, _, _. split; [done|]. by intros e [? [=]].
Qed.

Lemma transcribe_audio_total_witness :
  ∃ ok text w',
    transcribe_audio stub_whisper "in/a.mp3" "out" "id"
      (set_node "out/a.txt" Denied media_world)
    = (Ok (ok, output_path_of "in/a.mp3" "out", text), w')
    ∧ ok = false ∧ text = ""
    ∧ fs w' = fs (set_node "out/a.txt" Denied media_world)
    ∧ trace w' = [Print (MsgTranscribeFailed "a.mp3" (PermissionError "out/a.txt"))].
Proof.
  destruct (transcribe_audio_total stub_whisper "in/a.mp3" "out" "id"
              (set_node "out/a.txt" Denied media_world))
    as (ok & text & w' & Hstep & Hfail).
  exists ok, text, w'. split; [exact Hstep|].
  apply (Hfail (PermissionError "out/a.txt")).
  - vm_compute. eexists. reflexivity.
  - vm_compute. reflexivity.
Defined.

(** ** Failures of the services *)

(** C5. When the speech-recognition invocation for a file raises, the
    transcription step returns success = False, the loop body adds one to
    the failure counter only, and no file is created or overwritten. *)
Theorem recognition_failure_counted_nothing_written (sv : services) (a : args)
    (cf : string) (m : whisper) (s : option summarizer) (filename : string)
    (sc fc : nat) (w w0 : world) (file : string) (e : exn) :
  let out := output_path_of file (output_folder a) in
  choose_file sv a cf filename w = (Ok file, w0) →
  fs w0 !! out = None →
  transcribe m (log (Transcribe file (language a)) w0) file (language a) false
    = Raise e →
  ∃ w',
    transcribe_audio m file (output_folder a) (language a) w0
      = (Ok (false, out, ""), w')
    ∧ process_file sv a cf m s filename (sc, fc) w = (Ok (sc, S fc), w')
    ∧ fs w' = fs w0
    ∧ fs w' !! out = None.
Proof.
  intros out Hfile Hout He.
  assert (Hstep : transcribe_audio m file (output_folder a) (language a) w0
                  = failed_transcription file out "" e
                      (log (Transcribe file (language a)) w0)).
  { rewrite transcribe_audio_cases. fold out. rewrite Hout. cbn zeta. by rewrite He. }
  eexists. split; [exact Hstep|]. split; [|done].
  unfold process_file, bind. rewrite Hfile, Hstep. reflexivity.
Qed.

Lemma recognition_failure_counted_nothing_written_witness :
  ∃ w',
    transcribe_audio raising_whisper "in/a.mp3" (output_folder (cli false true))
      (language (cli false true)) media_world
    = (Ok (false, output_path_of "in/a.mp3" (output_folder (cli false true)), ""), w')
    ∧ process_file deaf_services (cli false true) "in/cleaned" raising_whisper
        (Some stub_summarizer) "a.mp3" (0%nat, 0%nat) media_world
      = (Ok (0%nat, 1%nat), w')
    ∧ fs w' = fs media_world
    ∧ fs w' !! output_path_of "in/a.mp3" (output_folder (cli false true)) = None.
Proof.
  apply (recognition_failure_counted_nothing_written deaf_services (cli false true)
           "in/cleaned" raising_whisper (Some stub_summarizer) "a.mp3" 0 0
           media_world media_world "in/a.mp3" (ServiceError "decoder crashed")).
  - reflexivity.
  - vm_compute. reflexivity.
  - reflexivity.
Defined.

(** The artifact is written only once the service has answered and every
    segment has been formatted. *)
Lemma artifact_written_after_formatting (m : whisper) (file_path folder lang : string)
    (w w' : world) (r : bool * string * string) :
  transcribe_audio m file_path folder lang w = (Ok r, w') →
  fs w' ≠ fs w →
  ∃ result lines,
    transcribe m (log (Transcribe file_path lang) w) file_path lang false = Ok result
    ∧ format_segments (default [] (res_segments result)) = Ok lines
    ∧ fs w' = <[output_path_of file_path folder := File (PyStr.join LF lines)]> (fs w).
Proof.
  rewrite transcribe_audio_cases. unfold failed_transcription.
  destruct (fs w !! _) as [[c| | |es]|] eqn:Hout;
    try (intros [= <- <-] Hne; by destruct Hne).
  cbn zeta. destruct (transcribe m _ _ _ _) as [res|e];
    [|intros [= <- <-] Hne; by destruct Hne].
  destruct (format_segments _) as [lines|e] eqn:Hlines;
    [|intros [= <- <-] Hne; by destruct Hne].
  intros [= <- <-] _. by exists res, lines.
Qed.

(** Each step of the denoising raises through [clean_audio]. *)
Lemma clean_audio_read_raises (sv : services) (cf filename original : string)
    (w : world) (e : exn) :
  let cleaned := OsPath.join cf (fst (OsPath.splitext filename) +:+ "_cleaned.wav") in
  fs w !! cleaned = None →
  sf_read sv (log (SfRead original) w) original = Raise e →
  clean_audio sv cf filename original w = (Raise e, log (SfRead original) w).
Proof.
  intros cleaned Hc He. unfold clean_audio, bind, path_exists, call_sf_read.
  fold cleaned. rewrite Hc. cbn -[lookup]. by rewrite He.
Qed.

Lemma clean_audio_mean_raises (sv : services) (cf filename original : string)
    (w : world) (data : audio sv) (rate : Z) (e : exn) :
  let cleaned := OsPath.join cf (fst (OsPath.splitext filename) +:+ "_cleaned.wav") in
  fs w !! cleaned = None →
  sf_read sv (log (SfRead original) w) original = Ok (data, rate) →
  1 < ndim sv data →
  mean_axis1 sv data = Raise e →
  clean_audio sv cf filename original w = (Raise e, log (SfRead original) w).
Proof.
  intros cleaned Hc Hr Hn He. unfold clean_audio, bind, path_exists, call_sf_read.
  fold cleaned. rewrite Hc. cbn -[lookup]. rewrite Hr.
  destruct (Z.ltb_spec 1 (ndim sv data)); [|lia].
  unfold of_outcome. by rewrite He.
Qed.

Lemma clean_audio_reduce_raises (sv : services) (cf filename original : string)
    (w : world) (data : audio sv) (rate : Z) (e : exn) :
  let cleaned := OsPath.join cf (fst (OsPath.splitext filename) +:+ "_cleaned.wav") in
  fs w !! cleaned = None →
  sf_read sv (log (SfRead original) w) original = Ok (data, rate) →
  ndim sv data <= 1 →
  reduce_noise sv (log (ReduceNoise rate) (log (SfRead original) w)) data rate
    = Raise e →
  clean_audio sv cf filename original w
  = (Raise e, log (ReduceNoise rate) (log (SfRead original) w)).
Proof.
  intros cleaned Hc Hr Hn He.
  unfold clean_audio, bind, path_exists, call_sf_read, call_reduce_noise.
  fold cleaned. rewrite Hc. cbn -[lookup]. rewrite Hr.
  destruct (Z.ltb_spec 1 (ndim sv data)); [lia|].
  unfold ret. by rewrite He.
Qed.

Lemma clean_audio_write_raises (sv : services) (cf filename original : string)
    (w : world) (data reduced : audio sv) (rate : Z) (e : exn) (left_behind : bool) :
  let cleaned := OsPath.join cf (fst (OsPath.splitext filename) +:+ "_cleaned.wav") in
  let w2 := log (ReduceNoise rate) (log (SfRead original) w) in
  fs w !! cleaned = None →
  sf_read sv (log (SfRead original) w) original = Ok (data, rate) →
  ndim sv data <= 1 →
  reduce_noise sv w2 data rate = Ok reduced →
  sf_write sv (log (SfWrite cleaned) w2) cleaned reduced rate
    = WriteFailed e left_behind →
  ∃ w3, clean_audio sv cf filename original w = (Raise e, w3).
Proof.
  intros cleaned w2 Hc Hr Hn Hred He.
  unfold clean_audio, bind, path_exists, call_sf_read, call_reduce_noise,
    call_sf_write.
  fold cleaned. rewrite Hc. cbn -[lookup]. rewrite Hr.
  destruct (Z.ltb_spec 1 (ndim sv data)); [lia|].
  unfold ret. fold w2. rewrite Hred, He. destruct left_behind; eauto.
Qed.

(** C7. With noise cleaning enabled, when the denoising of a file raises at
    any step, the exception is caught and reported, the transcription step
    runs on the original input path, and the loop body ends normally. *)
Theorem denoise_failure_falls_back_to_original (sv : services) (a : args)
    (cf : string) (m : whisper) (s : option summarizer) (filename : string)
    (sc fc : nat) (w w1 : world) (e : exn) :
  let original := OsPath.join (audio_folder a) filename in
  let w2 := log (Print (MsgDenoiseFailed filename e)) w1 in
  clean_noise a = true →
  clean_audio sv cf filename original w = (Raise e, w1) →
  choose_file sv a cf filename w = (Ok original, w2)
  ∧ ∃ r w3 counts' w4,
      transcribe_audio m original (output_folder a) (language a) w2 = (Ok r, w3)
      ∧ after_transcription a s r (sc, fc) w3 = (Ok counts', w4)
      ∧ process_file sv a cf m s filename (sc, fc) w = (Ok counts', w4).
Proof.
  intros original w2 Hclean Hraise.
  assert (Hchoose : choose_file sv a cf filename w = (Ok original, w2)).
  { unfold choose_file. rewrite Hclean. unfold try_except. fold original.
    by rewrite Hraise. }
  split; [done|].
  destruct (transcribe_audio_returns m original (output_folder a) (language a) w2)
    as (ok & text & w3 & Hr).
  destruct (after_transcription_counts a s m _ _ _ _ sc fc _ _ Hr) as [w4 Hafter].
  eexists _, w3, _, w4. split; [exact Hr|]. split; [exact Hafter|].
  unfold process_file, bind. by rewrite Hchoose, Hr.
Qed.

Lemma denoise_failure_falls_back_to_original_witness :
  let w1 := log (ReduceNoise 16000) (log (SfRead "in/a.mp3") media_world) in
  let w2 := log (Print (MsgDenoiseFailed "a.mp3" (ServiceError "out of memory"))) w1 in
  choose_file noisy_services (cli true false) "in/cleaned" "a.mp3" media_world
    = (Ok (OsPath.join (audio_folder (cli true false)) "a.mp3"), w2)
  ∧ ∃ r w3 counts' w4,
      transcribe_audio stub_whisper (OsPath.join (audio_folder (cli true false)) "a.mp3")
        (output_folder (cli true false)) (language (cli true false)) w2 = (Ok r, w3)
      ∧ after_transcription (cli true false) None r (0%nat, 0%nat) w3 = (Ok counts', w4)
      ∧ process_file noisy_services (cli true false) "in/cleaned" stub_whisper None
          "a.mp3" (0%nat, 0%nat) media_world = (Ok counts', w4).
Proof.
  apply (denoise_failure_falls_back_to_original noisy_services (cli true false)
           "in/cleaned" stub_whisper None "a.mp3" 0 0 media_world
           (log (ReduceNoise 16000) (log (SfRead "in/a.mp3") media_world))
           (ServiceError "out of memory")).
  - reflexivity.
  - vm_compute. reflexivity.
Defined.

(** ** The batch driver *)

Lemma main_split (sv : services) (a : args) (w : world) :
  main sv a w =
    match load_models sv a w with
    | (Ok (m, s), w1) => run_batch sv a m s w1
    | (Raise e, w1) => (Raise e, w1)
    end.
Proof.
  unfold main, load_models, bind, print, call_load_model, call_pipeline, ret.
  destruct (load_model sv _ _ _) as [m|e]; [|done].
  destruct (summarize a); [|done].
  by destruct (pipeline sv _ _ _ _) as [s|e].
Qed.

(** Loading touches no file and leaves only start-up events, the load of the
    speech-recognition model among them; with [--summarize] and a loaded
    speech model, the summarizer is loaded too. *)
Ltac not_in_list :=
  let Hin := fresh "Hin" in
  intros Hin;
  repeat (apply elem_of_cons in Hin as [Hin|Hin]; [discriminate|]);
  by apply elem_of_nil in Hin.

Ltac in_list :=
  repeat first [ apply list_elem_of_here | apply list_elem_of_further ].

Lemma load_models_events (sv : services) (a : args) (w : world) :
  let device := if cuda_is_available sv then "cuda" else "cpu" in
  ∃ evs,
    fs (snd (load_models sv a w)) = fs w
    ∧ trace (snd (load_models sv a w)) = trace w ++ evs
    ∧ forallb startup_event evs = true
    ∧ LoadWhisper (model_name (model a)) device ∈ evs
    ∧ (∀ d, LoadSummarizer d ∈ evs → summarize a = true)
    ∧ (summarize a = true →
       (∃ e, fst (load_models sv a w) = Raise e)
       ∨ LoadSummarizer (if String.eqb device "cuda" then 0 else -1) ∈ evs).
Proof.
  intros device.
  unfold load_models, bind, print, call_load_model, call_pipeline, ret, log.
  fold device. cbn -[device].
  destruct (load_model sv _ _ _) as [m|e]; cbn -[device].
  - destruct (summarize a); cbn -[device].
    + destruct (pipeline sv _ _ _ _) as [s|e]; cbn -[device].
      * eexists. rewrite <- !(assoc_L (++)). cbn -[device].
        split; [done|]. split; [done|]. split; [done|].
        split; [in_list|]. split; [done|].
        intros _. right. in_list.
      * eexists. rewrite <- !(assoc_L (++)). cbn -[device].
        split; [done|]. split; [done|]. split; [done|].
        split; [in_list|]. split; [done|].
        intros _. right. in_list.
    + eexists. rewrite <- !(assoc_L (++)). cbn -[device].
      split; [done|]. split; [done|]. split; [done|].
      split; [in_list|]. split; [|done].
      intros d Hd. exfalso. revert Hd. not_in_list.
  - eexists. rewrite <- !(assoc_L (++)). cbn -[device].
    split; [done|]. split; [done|]. split; [done|].
    split; [in_list|]. split; [|by intros _; left; exists e].
    intros d Hd. exfalso. revert Hd. not_in_list.
Qed.

Lemma run_batch_missing_folder (sv : services) (a : args) (m : whisper)
    (s : option summarizer) (w : world) :
  (∀ entries, fs w !! audio_folder a ≠ Some (Dir entries)) →
  run_batch sv a m s w = (Ok tt, log (Print (MsgFolderNotFound (audio_folder a))) w).
Proof.
  intros Hmissing. unfold run_batch, bind, isdir, print.
  destruct (fs w !! audio_folder a) as [[c| | |entries]|] eqn:Hdir; try done.
  by destruct (Hmissing entries).
Qed.

(** C4, as the code has it.  When the input folder is not a directory, the
    run creates and changes no file and consists of start-up events only
    (messages and model loads: no listing, denoising, transcription or
    summarization); the speech-recognition model is loaded before the folder
    is checked, and so is the summarizer when it is requested; if the loads
    succeed the run ends normally and its last event is the report of the
    missing folder; it can only raise when a load raised. *)
Theorem missing_folder_reported_after_loading (sv : services) (a : args) (w : world) :
  let device := if cuda_is_available sv then "cuda" else "cpu" in
  (∀ entries, fs w !! audio_folder a ≠ Some (Dir entries)) →
  ∃ evs,
    fs (snd (main sv a w)) = fs w
    ∧ trace (snd (main sv a w)) = trace w ++ evs
    ∧ forallb startup_event evs = true
    ∧ LoadWhisper (model_name (model a)) device ∈ evs
    ∧ (fst (main sv a w) = Ok tt →
       last evs = Some (Print (MsgFolderNotFound (audio_folder a)))
       ∧ (summarize a = true →
          LoadSummarizer (if String.eqb device "cuda" then 0 else -1) ∈ evs))
    ∧ (∀ e, fst (main sv a w) = Raise e → fst (load_models sv a w) = Raise e).
Proof.
  intros device Hmissing. rewrite main_split.
  destruct (load_models_events sv a w) as (evs & Hfs & Htrace & Hstart & Hload & _ & Hsum).
  fold device in Hload, Hsum.
  destruct (load_models sv a w) as [[[m s]|e] w1]; cbn [fst snd] in *.
  - rewrite run_batch_missing_folder by (by rewrite Hfs).
    exists (evs ++ [Print (MsgFolderNotFound (audio_folder a))]). cbn [fst snd log fs trace].
    split; [done|]. split; [by rewrite Htrace, (assoc_L (++))|].
    split; [by rewrite forallb_app, Hstart|].
    split; [apply elem_of_app; by left|].
    split; [|done]. intros _. split; [apply last_snoc|].
    intros Hs. destruct (Hsum Hs) as [[e [=]]|Hin]. apply elem_of_app. by left.
  - exists evs. do 4 (split; [done|]). split; [intros [=]|]. by intros e' [= <-].
Qed.

Lemma missing_folder_reported_after_loading_witness :
  ∃ evs,
    fs (snd (main stub_services (cli false true) empty_world)) = fs empty_world
    ∧ trace (snd (main stub_services (cli false true) empty_world))
      = trace empty_world ++ evs
    ∧ forallb startup_event evs = true
    ∧ LoadWhisper (model_name (model (cli false true)))
        (if cuda_is_available stub_services then "cuda" else "cpu") ∈ evs
    ∧ (fst (main stub_services (cli false true) empty_world) = Ok tt →
       last evs = Some (Print (MsgFolderNotFound (audio_folder (cli false true))))
       ∧ (summarize (cli false true) = true →
          LoadSummarizer
            (if String.eqb (if cuda_is_available stub_services then "cuda" else "cpu")
                           "cuda" then 0 else -1) ∈ evs))
    ∧ (∀ e, fst (main stub_services (cli false true) empty_world) = Raise e →
         fst (load_models stub_services (cli false true) empty_world) = Raise e).
Proof.
  apply (missing_folder_reported_after_loading stub_services (cli false true) empty_world).
  intros entries. vm_compute. discriminate.
Defined.

(** C4, as stated, fails: with a missing input folder both models are loaded
    before the folder is checked. *)
Lemma models_loaded_before_folder_check :
  fs empty_world !! "in" = None
  ∧ main stub_services (cli false true) empty_world
    = (Ok tt,
       {| fs := ∅;
          trace := [Print (MsgDevice "CPU"); Print (MsgLoadingWhisper "medium");
                    LoadWhisper "medium" "cpu"; Print MsgWhisperLoaded;
                    Print MsgLoadingSummarizer; LoadSummarizer (-1);
                    Print MsgSummarizerLoaded; Print (MsgFolderNotFound "in")] |}).
Proof. split; reflexivity. Qed.





(** ** The summarization pass *)

Lemma after_transcription_summarized (a : args) (s : summarizer)
    (out text plain : string) (cs : list string) (sc fc : nat) (w1 : world) :
  summarize a = true → text ≠ "" →
  fs w1 !! out = Some (File plain) →
  chunks text 512 = Ok cs →
  after_transcription a (Some s) (true, out, text) (sc, fc) w1 =
    let w2 := log (Summarize cs) (log (Print MsgSummarizing) w1) in
    match summarize_batch s w2 cs 150 30 false with
    | Ok summaries =>
        (Ok (S sc, fc),
         set_node out (File (summarized_layout (PyStr.join " " summaries) plain))
           (log (Print MsgSummaryDone) w2))
    | Raise e =>
        (Ok (S sc, fc),
         set_node out (File (summarized_layout SUMMARY_FAILED plain))
           (log (Print (MsgSummaryFailed e)) w2))
    end.
Proof.
  intros Hsum Htext Hout Hcs. cbn [after_transcription].
  rewrite Hsum. apply String.eqb_neq in Htext. rewrite Htext. cbn [andb negb].
  unfold bind at 1, read_text. rewrite Hout.
  unfold bind at 1. rewrite (summarize_text_cases _ _ _ _ Hcs). cbn zeta.
  destruct (summarize_batch s _ cs 150 30 false) as [summaries|e];
    unfold bind, write_text, ret; cbn -[lookup]; by rewrite Hout.
Qed.

Lemma after_transcription_skipped (a : args) (s : option summarizer)
    (out text : string) (sc fc : nat) (w1 : world) :
  summarize a = false ∨ text = "" →
  after_transcription a s (true, out, text) (sc, fc) w1 = (Ok (S sc, fc), w1).
Proof.
  intros H. cbn [after_transcription].
  destruct H as [-> | ->]; [done|]. by rewrite andb_false_r.
Qed.




(** C3, as the code has it.  For a file whose transcription step succeeds
    with summarization enabled and a non-empty text, the summarizer is
    called once, on the chunks of a source text: when the artifact did not
    exist before the step, the source is the full text that the
    speech-recognition service returned; when the artifact existed, the
    source is the stripped part of the artifact after the transcript
    marker. *)
Theorem summary_source (sv : services) (a : args) (cf : string) (m : whisper)
    (s : summarizer) (filename : string) (sc fc : nat) (w w0 w1 : world)
    (file out text : string) :
  choose_file sv a cf filename w = (Ok file, w0) →
  transcribe_audio m file (output_folder a) (language a) w0
    = (Ok (true, out, text), w1) →
  summarize a = true → text ≠ "" →
  ∃ cs msg w2,
    chunks text 512 = Ok cs
    ∧ process_file sv a cf m (Some s) filename (sc, fc) w = (Ok (S sc, fc), w2)
    ∧ trace w2 = trace w1 ++ [Print MsgSummarizing; Summarize cs; Print msg]
    ∧ match fs w0 !! out with
      | None =>
          ∃ result,
            transcribe m (log (Transcribe file (language a)) w0) file (language a) false
              = Ok result
            ∧ text = default "" (res_text result)
      | Some node =>
          ∃ content,
            node = File content
            ∧ text = PyStr.strip (PyStr.last_item (PyStr.split TRANSCRIPT_MARKER content))
      end.
Proof.
  intros Hfile Hstep Hsum Htext.
  destruct (transcribe_audio_success _ _ _ _ _ _ _ _ Hstep) as [Hout_eq [plain Hplain]].
  destruct (chunks_512 text) as [cs Hcs]. exists cs.
  assert (Hsource :
    match fs w0 !! out with
    | None =>
        ∃ result,
          transcribe m (log (Transcribe file (language a)) w0) file (language a) false
            = Ok result
          ∧ text = default "" (res_text result)
    | Some node =>
        ∃ content,
          node = File content
          ∧ text = PyStr.strip (PyStr.last_item (PyStr.split TRANSCRIPT_MARKER content))
    end).
  { revert Hstep. rewrite transcribe_audio_cases, <- Hout_eq.
    unfold failed_transcription.
    destruct (fs w0 !! out) as [[c| | |es]|]; try (intros [=]; fail).
    - intros [= <- <-]. by exists c.
    - cbn zeta. destruct (transcribe m _ _ _ _) as [r|e]; [|intros [=]].
      destruct (format_segments _) as [lines|e]; [|intros [=]].
      intros [= <- <-]. by exists r. }
  pose proof (after_transcription_summarized a s out text plain cs sc fc w1
                Hsum Htext Hplain Hcs) as Hafter.
  cbn zeta in Hafter.
  destruct (summarize_batch s _ cs 150 30 false) as [summaries|e];
    eexists _, _; (split; [done|]);
    (split; [unfold process_file, bind; rewrite Hfile, Hstep; exact Hafter|]);
    (split; [|done]); cbn [set_node log trace]; by rewrite <- !(assoc_L (++)).
Qed.

Lemma summary_source_witness :
  ∃ cs msg w2,
    chunks " hello world" 512 = Ok cs
    ∧ process_file stub_services (cli false true) "in/cleaned" stub_whisper
        (Some stub_summarizer) "a.mp3" (0%nat, 0%nat) media_world
      = (Ok (1%nat, 0%nat), w2)
    ∧ trace w2
      = trace (set_node "out/a.txt" (File plain_artifact)
                 (log (Transcribe "in/a.mp3" "id") media_world))
        ++ [Print MsgSummarizing; Summarize cs; Print msg]
    ∧ match fs media_world !! "out/a.txt" with
      | None =>
          ∃ result,
            transcribe stub_whisper (log (Transcribe "in/a.mp3" (language (cli false true)))
                                       media_world)
              "in/a.mp3" (language (cli false true)) false = Ok result
            ∧ " hello world" = default "" (res_text result)
      | Some node =>
          ∃ content,
            node = File content
            ∧ " hello world"
              = PyStr.strip (PyStr.last_item (PyStr.split TRANSCRIPT_MARKER content))
      end.
Proof.
  apply (summary_source stub_services (cli false true) "in/cleaned" stub_whisper
           stub_summarizer "a.mp3" 0 0 media_world media_world
           (set_node "out/a.txt" (File plain_artifact)
              (log (Transcribe "in/a.mp3" "id") media_world))
           "in/a.mp3" "out/a.txt" " hello world").
  - reflexivity.
  - vm_compute. reflexivity.
  - reflexivity.
  - discriminate.
Defined.

(** C3, as stated, fails: for an artifact left by an earlier run without
    [--summarize], the summarizer receives the formatted, timestamped lines
    and not the full text [" hello world"] that the service returns for the
    file. *)
Lemma summary_of_formatted_text_counterexample :
  let earlier := next_run (snd (main stub_services (cli false false) media_world)) in
  ∃ w2,
    transcribe stub_whisper earlier "in/a.mp3" "id" false = Ok stub_result
    ∧ res_text stub_result = Some " hello world"
    ∧ chunks " hello world" 512 = Ok ["hello world"]
    ∧ fs earlier !! "out/a.txt" = Some (File plain_artifact)
    ∧ transcribe_audio stub_whisper "in/a.mp3" "out" "id" earlier
      = (Ok (true, "out/a.txt", plain_artifact), earlier)
    ∧ process_file stub_services (cli false true) "in/cleaned" stub_whisper
        (Some stub_summarizer) "a.mp3" (0%nat, 0%nat) earlier
      = (Ok (1%nat, 0%nat), w2)
    ∧ trace w2 = [Print MsgSummarizing;
                  Summarize ["[0.00s - 1.50s] hello [1.50s - 3.00s] world"];
                  Print MsgSummaryDone]
    ∧ Summarize ["hello world"] ∉ trace w2.
Proof.
  intros earlier. eexists.
  split; [reflexivity|]. split; [reflexivity|].
  split; [vm_compute; reflexivity|].
  split; [vm_compute; reflexivity|].
  split; [vm_compute; reflexivity|].
  split; [vm_compute; reflexivity|].
  split; [vm_compute; reflexivity|].
  vm_compute. not_in_list.
Qed.

(** ** Reusing an existing artifact *)

Lemma transcript_marker_nonempty : TRANSCRIPT_MARKER ≠ "".
Proof. discriminate. Qed.

(** An existing text artifact is reused as it is: no service call, no
    message, no write. *)
Lemma transcribe_audio_existing (m : whisper) (file_path folder lang content : string)
    (w : world) :
  let out := output_path_of file_path folder in
  fs w !! out = Some (File content) →
  transcribe_audio m file_path folder lang w
  = (Ok (true, out,
         PyStr.strip (PyStr.last_item (PyStr.split TRANSCRIPT_MARKER content))), w).
Proof. intros out Hout. rewrite transcribe_audio_cases. fold out. by rewrite Hout. Qed.

(** C9, as the code has it.  When the output artifact already exists as a
    text file, the transcription step succeeds without any service call and
    reuses the stripped last piece of the content split at the transcript
    marker: that piece is the whole content when the marker is absent,
    otherwise it follows an occurrence of the marker; no occurrence lies
    inside it; and it is everything after the last occurrence whenever the
    occurrences of the marker in the content do not overlap.  When the
    stripped piece is empty the loop body counts a success and does nothing
    else, whatever the flags. *)
Theorem reused_text_follows_marker (sv : services) (a : args) (cf : string)
    (m : whisper) (s : option summarizer) (filename : string) (sc fc : nat)
    (w w0 : world) (file content : string) :
  let out := output_path_of file (output_folder a) in
  let rest := PyStr.last_item (PyStr.split TRANSCRIPT_MARKER content) in
  choose_file sv a cf filename w = (Ok file, w0) →
  fs w0 !! out = Some (File content) →
  transcribe_audio m file (output_folder a) (language a) w0
    = (Ok (true, out, PyStr.strip rest), w0)
  ∧ (rest = content ∨ ∃ before, content = before +:+ TRANSCRIPT_MARKER +:+ rest)
  ∧ ¬ occurs_in TRANSCRIPT_MARKER rest
  ∧ (¬ occurs_in TRANSCRIPT_MARKER content → rest = content)
  ∧ (no_overlap TRANSCRIPT_MARKER content →
     rest = after_last_occurrence TRANSCRIPT_MARKER content)
  ∧ (PyStr.strip rest = "" →
     process_file sv a cf m s filename (sc, fc) w = (Ok (S sc, fc), w0)).
Proof.
  intros out rest Hfile Hout.
  pose proof (transcribe_audio_existing m file (output_folder a) (language a)
                content w0 Hout) as Hstep.
  fold out rest in Hstep.
  destruct (SplitFacts.split_last TRANSCRIPT_MARKER content transcript_marker_nonempty)
    as [Hfollows Hnone].
  split; [done|]. split; [done|]. split; [done|].
  split; [apply SplitFacts.split_absent|].
  split; [apply SplitFacts.split_last_no_overlap, transcript_marker_nonempty|].
  intros Hempty. unfold process_file, bind. rewrite Hfile, Hstep, Hempty.
  apply after_transcription_skipped. by right.
Qed.

Lemma reused_text_follows_marker_witness :
  let content := "--- RINGKASAN ---" +:+ LF +:+ "S1" +:+ LF +:+ LF
                 +:+ "--- TRANSKRIPSI LENGKAP ---" +:+ LF in
  let w := set_node "out/a.txt" (File content) media_world in
  let rest := PyStr.last_item (PyStr.split TRANSCRIPT_MARKER content) in
  transcribe_audio stub_whisper "in/a.mp3" "out" "id" w
    = (Ok (true, "out/a.txt", PyStr.strip rest), w)
  ∧ rest = after_last_occurrence TRANSCRIPT_MARKER content
  ∧ PyStr.strip rest = ""
  ∧ process_file stub_services (cli false true) "in/cleaned" stub_whisper
      (Some stub_summarizer) "a.mp3" (0%nat, 0%nat) w
    = (Ok (1%nat, 0%nat), w).
Proof.
  intros content w rest.
  destruct (reused_text_follows_marker stub_services (cli false true) "in/cleaned"
              stub_whisper (Some stub_summarizer) "a.mp3" 0 0 w w "in/a.mp3" content)
    as (Hstep & _ & _ & _ & Hlast & Hskip).
  - reflexivity.
  - vm_compute. reflexivity.
  - split; [exact Hstep|]. split; [|split; [vm_compute; reflexivity|]].
    + apply Hlast.
      apply (SplitFacts.single_occurrence_no_overlap TRANSCRIPT_MARKER content
               ("--- RINGKASAN ---" +:+ LF +:+ "S1" +:+ LF +:+ LF) LF LF);
        vm_compute; reflexivity.
    + apply Hskip. vm_compute. reflexivity.
Defined.

(** C9, as stated, fails where two occurrences of the marker overlap: what
    follows the last occurrence is empty, yet the text reused is not, and
    the summarization pass runs. *)
Lemma overlapping_markers_counterexample :
  ∃ w2,
    fs overlapping_world !! "out/a.txt" = Some (File overlapping_content)
    ∧ overlapping_content
      = "--- TRANSKRIPSI LENGKAP " +:+ TRANSCRIPT_MARKER +:+ ""
    ∧ PyStr.strip (after_last_occurrence TRANSCRIPT_MARKER overlapping_content) = ""
    ∧ transcribe_audio stub_whisper "in/a.mp3" "out" "id" overlapping_world
      = (Ok (true, "out/a.txt", "TRANSKRIPSI LENGKAP ---"), overlapping_world)
    ∧ process_file stub_services (cli false true) "in/cleaned" stub_whisper
        (Some stub_summarizer) "a.mp3" (0%nat, 0%nat) overlapping_world
      = (Ok (1%nat, 0%nat), w2)
    ∧ trace w2 = [Print MsgSummarizing; Summarize ["TRANSKRIPSI LENGKAP ---"];
                  Print MsgSummaryDone].
Proof.
  eexists.
  split; [vm_compute; reflexivity|]. split; [reflexivity|].
  split; [vm_compute; reflexivity|].
  split; [vm_compute; reflexivity|].
  split; vm_compute; reflexivity.
Qed.

(** ** Running the batch twice *)

(** Without [--summarize], a file whose artifact exists is left alone: the
    second pass over it changes no file and calls no service. *)
Lemma rerun_without_summary_changes_nothing (sv : services) (a : args) (cf : string)
    (m : whisper) (s : option summarizer) (filename : string) (sc fc : nat)
    (w w0 : world) (file content : string) :
  choose_file sv a cf filename w = (Ok file, w0) →
  fs w0 !! output_path_of file (output_folder a) = Some (File content) →
  summarize a = false →
  process_file sv a cf m s filename (sc, fc) w = (Ok (S sc, fc), w0).
Proof.
  intros Hfile Hout Hsum. unfold process_file, bind.
  rewrite Hfile, (transcribe_audio_existing _ _ _ _ _ _ Hout).
  apply after_transcription_skipped. by left.
Qed.

(** C1 at a concrete folder: two runs with [--summarize] and the same stub
    services.  The second run does not call the speech-recognition service,
    but it summarizes the artifact again and writes a second summary block
    in front of the first, so the artifact is not what the first run left. *)
Theorem second_summarizing_run_rewrites_artifact :
  let first := snd (main stub_services (cli false true) media_world) in
  let second := snd (main stub_services (cli false true) (next_run first)) in
  fs first !! "out/a.txt" = Some (File (summarized_layout "S1" plain_artifact))
  ∧ fs second !! "out/a.txt"
    = Some (File (summarized_layout "S1" (summarized_layout "S1" plain_artifact)))
  ∧ fs second !! "out/a.txt" ≠ fs first !! "out/a.txt"
  ∧ (∀ path lang, Transcribe path lang ∉ trace second)
  ∧ Summarize ["[0.00s - 1.50s] hello [1.50s - 3.00s] world"] ∈ trace second.
Proof.
  intros first second.
  split; [vm_compute; reflexivity|].
  split; [vm_compute; reflexivity|].
  split; [vm_compute; discriminate|].
  split; [intros path lang; vm_compute; not_in_list|].
  vm_compute. in_list.
Qed.

(* ================================================================= *)
(** * Further properties of the code *)

(** ** Chunk sizes *)

Lemma chunks_depend_on_words (T1 T2 : string) (L : Z) :
  PyStr.split_ws T1 = PyStr.split_ws T2 → chunks T1 L = chunks T2 L.
Proof. intros H. unfold chunks. by rewrite H. Qed.

Lemma group_words (T : string) (L k : nat) :
  Forall PyStr.is_word (take L (drop (k * L) (PyStr.split_ws T))).
Proof. apply Forall_take, Forall_drop, PyStrFacts.split_ws_words. Qed.

(** The words of the joined chunks are the words of the text. *)
Lemma chunks_join_words (T : string) (L : Z) (cs : list string) :
  0 < L → chunks T L = Ok cs →
  PyStr.split_ws (PyStr.join " " cs) = PyStr.split_ws T.
Proof.
  intros HL. rewrite chunks_groups by done. intros [= <-].
  rewrite PyStrFacts.split_ws_join, map_map.
  rewrite (map_ext _ (fun k => take (Z.to_nat L) (drop (k * Z.to_nat L) (PyStr.split_ws T)))).
  - rewrite concat_groups. apply take_ge.
    pose proof (range_count_covers (Z.of_nat (length (PyStr.split_ws T))) L
                  ltac:(lia) HL). nia.
  - intros k. apply PyStrFacts.split_ws_join_words.
    exact (group_words T (Z.to_nat L) k).
Qed.

(** X1. For a limit [L > 0] and a text of [n] words there are
    [ceil (n / L)] chunks, and chunk number [k] has [min L (n - k * L)]
    words, at least one: every chunk but the last has exactly [L] words and
    no chunk is empty. *)
Theorem chunk_sizes (T : string) (L : Z) :
  0 < L →
  let n := Z.of_nat (length (PyStr.split_ws T)) in
  ∃ cs, chunks T L = Ok cs
        ∧ Z.of_nat (length cs) = (n + L - 1) / L
        ∧ ∀ (k : nat) (c : string), cs !! k = Some c →
            Z.of_nat (length (PyStr.split_ws c)) = Z.min L (n - Z.of_nat k * L)
            ∧ 1 <= Z.of_nat (length (PyStr.split_ws c)).
Proof.
  intros HL n. eexists. split; [by apply chunks_groups|].
  fold n. set (m := Z.to_nat ((n + L - 1) / L)).
  assert (Hm : Z.of_nat m = (n + L - 1) / L).
  { subst m. apply Z2Nat.id, Z.div_pos; lia. }
  split; [by rewrite length_map, length_seq|].
  intros k c Hk. rewrite list_lookup_fmap in Hk.
  destruct (seq 0 m !! k) as [k'|] eqn:Hseq; [|done].
  apply lookup_seq in Hseq as [-> Hlt]. cbn in Hk. injection Hk as <-.
  rewrite PyStrFacts.split_ws_join_words by exact (group_words T (Z.to_nat L) k).
  rewrite length_take, length_drop.
  pose proof (range_count_last_starts n L ltac:(lia) HL) as Hlast.
  rewrite <- Hm in Hlast. subst n. nia.
Qed.

Lemma chunk_sizes_witness :
  0 < 2 ∧
  ∃ cs, chunks "  a bb  ccc d e " 2 = Ok cs
        ∧ Z.of_nat (length cs)
          = (Z.of_nat (length (PyStr.split_ws "  a bb  ccc d e ")) + 2 - 1) / 2
        ∧ ∀ (k : nat) (c : string), cs !! k = Some c →
            Z.of_nat (length (PyStr.split_ws c))
            = Z.min 2 (Z.of_nat (length (PyStr.split_ws "  a bb  ccc d e "))
                       - Z.of_nat k * 2)
            ∧ 1 <= Z.of_nat (length (PyStr.split_ws c)).
Proof.
  split; [lia|]. apply (chunk_sizes "  a bb  ccc d e " 2). lia.
Defined.

(** X2. Chunking again the chunks joined with single spaces gives the same
    chunks: the chunks depend on the word sequence only. *)
Theorem chunks_of_joined_chunks (T : string) (L : Z) (cs : list string) :
  0 < L → chunks T L = Ok cs → chunks (PyStr.join " " cs) L = Ok cs.
Proof.
  intros HL Hcs. rewrite <- Hcs.
  apply chunks_depend_on_words. by apply (chunks_join_words T L).
Qed.

Lemma chunks_of_joined_chunks_witness :
  chunks (PyStr.join " " ["a bb"; "ccc d"; "e"]) 2 = Ok ["a bb"; "ccc d"; "e"].
Proof.
  apply (chunks_of_joined_chunks "  a bb  ccc d e " 2); [lia | reflexivity].
Defined.

(** ** The summary aggregator fails soft *)

(** X3. [summarize_text] never raises and changes no file, whatever the
    limit and the summarizer.  With a limit of 0 the chunking raises and the
    sentinel is returned without any call of the summarizer; with no
    summarizer loaded, or with a summarizer that raises, the sentinel is
    returned and the failure is printed. *)
Theorem summarize_text_fails_soft (text : string) (s : option summarizer) (L : Z)
    (w : world) :
  ∃ summary w',
    summarize_text text s L w = (Ok summary, w')
    ∧ fs w' = fs w
    ∧ (L = 0 →
       summary = SUMMARY_FAILED
       ∧ trace w' = trace w ++ [Print MsgSummarizing;
                                Print (MsgSummaryFailed ValueError)])
    ∧ (L ≠ 0 → s = None →
       summary = SUMMARY_FAILED
       ∧ trace w' = trace w ++ [Print MsgSummarizing;
                                Print (MsgSummaryFailed TypeError)])
    ∧ (∀ sm cs e,
         s = Some sm → chunks text L = Ok cs →
         summarize_batch sm (log (Summarize cs) (log (Print MsgSummarizing) w))
           cs 150 30 false = Raise e →
         summary = SUMMARY_FAILED
         ∧ trace w' = trace w ++ [Print MsgSummarizing; Summarize cs;
                                  Print (MsgSummaryFailed e)]).
Proof.
  unfold summarize_text, try_except, bind, print, of_outcome, call_summarizer, ret.
  assert (Hzero : L = 0 → chunks text L = Raise ValueError).
  { intros ->. reflexivity. }
  assert (Hnonzero : L ≠ 0 → ∃ cs, chunks text L = Ok cs).
  { intros HL. unfold chunks, py_range. destruct (Z.eqb_spec L 0); [done|]. eauto. }
  destruct (chunks text L) as [cs|e] eqn:Hcs.
  - destruct s as [sm|].
    + destruct (summarize_batch sm _ cs 150 30 false) as [summaries|e] eqn:Hsm;
        eexists _, _; (split; [done|]); (split; [done|]);
        (split; [intros HL; discriminate (Hzero HL)|]);
        (split; [done|]); intros sm' cs' e' [= <-] [= <-] Hraise;
        cbn -[log] in Hraise; rewrite Hsm in Hraise; [done|].
      injection Hraise as <-. split; [done|].
      cbn. by rewrite <- !(assoc_L (++)).
    + eexists _, _. split; [done|]. split; [done|].
      split; [intros HL; discriminate (Hzero HL)|].
      split; [|done]. intros _ _. split; [done|].
      cbn. by rewrite <- !(assoc_L (++)).
  - eexists _, _. split; [done|]. split; [done|].
    split; [|split].
    + intros HL. injection (Hzero HL) as ->.
      split; [done|]. cbn. by rewrite <- !(assoc_L (++)).
    + intros HL. by destruct (Hnonzero HL) as [cs [=]].
    + by intros sm cs e' _ [=].
Qed.

Lemma summarize_text_fails_soft_witness :
  ∃ summary w',
    summarize_text "hello world" (Some raising_summarizer) 512 media_world
    = (Ok summary, w')
    ∧ summary = SUMMARY_FAILED
    ∧ trace w' = trace media_world
                 ++ [Print MsgSummarizing; Summarize ["hello world"];
                     Print (MsgSummaryFailed (ServiceError "model overloaded"))].
Proof.
  destruct (summarize_text_fails_soft "hello world" (Some raising_summarizer) 512
              media_world) as (summary & w' & Hrun & _ & _ & _ & Hraise).
  exists summary, w'. split; [exact Hrun|].
  apply (Hraise raising_summarizer ["hello world"] (ServiceError "model overloaded"));
    reflexivity.
Defined.

(** ** An artifact, once written, is reused *)

(** X4. After a successful transcription step the artifact is a text file,
    and any later step for a source with the same output path, with any
    model and language, succeeds with the stripped text after the marker,
    calls no service and changes nothing. *)
Theorem transcription_step_is_reused (m : whisper) (file folder lang : string)
    (w w1 : world) (out text : string) :
  transcribe_audio m file folder lang w = (Ok (true, out, text), w1) →
  ∃ content,
    fs w1 !! out = Some (File content)
    ∧ ∀ (m' : whisper) (file' lang' : string),
        output_path_of file' folder = out →
        transcribe_audio m' file' folder lang' w1
        = (Ok (true, out,
               PyStr.strip (PyStr.last_item (PyStr.split TRANSCRIPT_MARKER content))),
           w1).
Proof.
  intros Hstep.
  destruct (transcribe_audio_success _ _ _ _ _ _ _ _ Hstep) as [_ [content Hout]].
  exists content. split; [done|]. intros m' file' lang' Hsame.
  rewrite <- Hsame in Hout |- *. by apply transcribe_audio_existing.
Qed.

Lemma transcription_step_is_reused_witness :
  ∃ content,
    fs (set_node "out/a.txt" (File plain_artifact)
          (log (Transcribe "in/a.mp3" "id") media_world)) !! "out/a.txt"
    = Some (File content)
    ∧ ∀ (m' : whisper) (file' lang' : string),
        output_path_of file' "out" = "out/a.txt" →
        transcribe_audio m' file' "out" lang'
          (set_node "out/a.txt" (File plain_artifact)
             (log (Transcribe "in/a.mp3" "id") media_world))
        = (Ok (true, "out/a.txt",
               PyStr.strip (PyStr.last_item (PyStr.split TRANSCRIPT_MARKER content))),
           set_node "out/a.txt" (File plain_artifact)
             (log (Transcribe "in/a.mp3" "id") media_world)).
Proof.
  apply (transcription_step_is_reused stub_whisper "in/a.mp3" "out" "id" media_world
           _ "out/a.txt" " hello world").
  vm_compute. reflexivity.
Defined.

(** ** Segments with missing keys *)


Lemma format_segments_incomplete (segs : list segment) :
  forallb segment_complete segs = false →
  ∃ key, format_segments segs = Raise (KeyError key).
Proof.
  induction segs as [|[[a|] [b|] [t|]] segs IH]; cbn; try done; eauto.
  intros Hrest. destruct (IH Hrest) as [key ->]. eauto.
Qed.

(** X5. When the service answers with a segment that lacks one of its keys,
    the formatting raises a [KeyError]: the step returns success = False
    together with the full text it had gathered, prints the failure, and
    writes no file. *)
Theorem incomplete_segment_fails_step (m : whisper) (file folder lang : string)
    (w : world) (result : whisper_result) :
  let out := output_path_of file folder in
  let w1 := log (Transcribe file lang) w in
  fs w !! out = None →
  transcribe m w1 file lang false = Ok result →
  forallb segment_complete (default [] (res_segments result)) = false →
  ∃ key,
    transcribe_audio m file folder lang w
    = (Ok (false, out, default "" (res_text result)),
       log (Print (MsgTranscribeFailed (OsPath.basename file) (KeyError key))) w1).
Proof.
  intros out w1 Hout Hres [key Hkey]%format_segments_incomplete.
  exists key. rewrite transcribe_audio_cases. fold out. rewrite Hout. cbn zeta.
  fold w1. by rewrite Hres, Hkey.
Qed.

Lemma incomplete_segment_fails_step_witness :
  ∃ key,
    transcribe_audio broken_whisper "in/a.mp3" "out" "id" media_world
    = (Ok (false, output_path_of "in/a.mp3" "out", default "" (res_text broken_result)),
       log (Print (MsgTranscribeFailed (OsPath.basename "in/a.mp3") (KeyError key)))
         (log (Transcribe "in/a.mp3" "id") media_world)).
Proof.
  apply (incomplete_segment_fails_step broken_whisper "in/a.mp3" "out" "id"
           media_world broken_result).
  - vm_compute. reflexivity.
  - reflexivity.
  - reflexivity.
Defined.



(** ** The summarization pass and the artifact *)





(** ** Cleaned audio is made once *)

Lemma choose_file_existing (sv : services) (a : args) (cf filename : string)
    (w : world) :
  clean_noise a = true →
  is_Some (fs w !! cleaned_path_of cf filename) →
  choose_file sv a cf filename w = (Ok (cleaned_path_of cf filename), w).
Proof.
  intros Hclean [n Hn]. unfold choose_file. rewrite Hclean.
  unfold try_except, clean_audio, bind, path_exists, ret.
  fold (cleaned_path_of cf filename). by rewrite Hn.
Qed.

(** X9. With noise cleaning enabled, a denoising that succeeds leaves the
    cleaned audio at its path, and from then on the file is taken from
    there: choosing the file again, with any services, calls none of them,
    prints nothing and changes nothing. *)
Theorem cleaned_audio_made_once (sv : services) (a : args) (cf filename : string)
    (w w1 : world) (path : string) :
  clean_noise a = true →
  clean_audio sv cf filename (OsPath.join (audio_folder a) filename) w = (Ok path, w1) →
  path = cleaned_path_of cf filename
  ∧ is_Some (fs w1 !! path)
  ∧ ∀ sv' : services, choose_file sv' a cf filename w1 = (Ok path, w1).
Proof.
  intros Hclean Hrun.
  assert (path = cleaned_path_of cf filename ∧ is_Some (fs w1 !! path)) as [-> Hsome].
  { revert Hrun.
    unfold clean_audio, bind, path_exists, call_sf_read, call_reduce_noise,
      call_sf_write, of_outcome, ret.
    fold (cleaned_path_of cf filename).
    destruct (fs w !! cleaned_path_of cf filename) as [n|] eqn:Hn; cbn -[lookup].
    - intros [= <- <-]. by rewrite Hn.
    - destruct (sf_read sv _ _) as [[data rate]|e]; [|intros [=]].
      destruct (1 <? ndim sv data).
      + destruct (mean_axis1 sv data) as [data'|e]; [|intros [=]].
        destruct (reduce_noise sv _ data' rate) as [reduced|e]; [|intros [=]].
        destruct (sf_write sv _ _ reduced rate) as [|e []]; [|intros [=]..].
        intros [= <- <-]. split; [done|]. cbn. rewrite lookup_insert_eq. by eexists.
      + destruct (reduce_noise sv _ data rate) as [reduced|e]; [|intros [=]].
        destruct (sf_write sv _ _ reduced rate) as [|e []]; [|intros [=]..].
        intros [= <- <-]. split; [done|]. cbn. rewrite lookup_insert_eq. by eexists. }
  split; [done|]. split; [done|]. intros sv'. by apply choose_file_existing.
Qed.

Lemma cleaned_audio_made_once_witness :
  "in/cleaned/a_cleaned.wav" = cleaned_path_of "in/cleaned" "a.mp3"
  ∧ is_Some (fs (set_node "in/cleaned/a_cleaned.wav" Binary
                   (log (SfWrite "in/cleaned/a_cleaned.wav")
                      (log (ReduceNoise 16000) (log (SfRead "in/a.mp3") media_world))))
             !! "in/cleaned/a_cleaned.wav")
  ∧ ∀ sv' : services,
      choose_file sv' (cli true false) "in/cleaned" "a.mp3"
        (set_node "in/cleaned/a_cleaned.wav" Binary
           (log (SfWrite "in/cleaned/a_cleaned.wav")
              (log (ReduceNoise 16000) (log (SfRead "in/a.mp3") media_world))))
      = (Ok "in/cleaned/a_cleaned.wav",
         set_node "in/cleaned/a_cleaned.wav" Binary
           (log (SfWrite "in/cleaned/a_cleaned.wav")
              (log (ReduceNoise 16000) (log (SfRead "in/a.mp3") media_world)))).
Proof.
  apply (cleaned_audio_made_once stub_services (cli true false) "in/cleaned" "a.mp3"
           media_world).
  - reflexivity.
  - vm_compute. reflexivity.
Defined.

(** ** Paths *)

Module PathFacts.
Import PyStr PyStrFacts.

Lemma take_app (a b : string) : take (String.length a) (a +:+ b) = a.
Proof.
  induction a as [|c a IH]; [by destruct b|].
  rewrite str_app_cons. cbn. by rewrite IH.
Qed.

Lemma take_drop (n : nat) (s : string) : take n s +:+ drop n s = s.
Proof.
  revert s. induction n as [|n IH]; intros [|c s]; try done.
  cbn. rewrite str_app_cons. by rewrite IH.
Qed.

Lemma has_char_app (c : ascii) (a b : string) :
  has_char c (a +:+ b) = has_char c a || has_char c b.
Proof.
  induction a as [|x a IH]; [done|].
  rewrite str_app_cons. cbn. by rewrite IH, orb_assoc.
Qed.

Lemma has_char_take (c : ascii) (n : nat) (s : string) :
  has_char c s = false → has_char c (take n s) = false.
Proof.
  revert s. induction n as [|n IH]; intros [|x s]; try done.
  cbn. intros [Hx Hs]%orb_false_elim. by rewrite Hx, IH.
Qed.

Lemma has_char_drop (c : ascii) (n : nat) (s : string) :
  has_char c s = false → has_char c (drop n s) = false.
Proof.
  revert s. induction n as [|n IH]; intros [|x s]; try done.
  cbn. intros [Hx Hs]%orb_false_elim. by apply IH.
Qed.

(** Nothing follows the last occurrence of a character. *)
Lemma rfind_char_spec (c : ascii) (s : string) :
  match rfind_char c s with
  | Some i => has_char c (drop (S i) s) = false
  | None => has_char c s = false
  end.
Proof.
  induction s as [|d s IH]; [done|]. cbn [rfind_char].
  destruct (rfind_char c s) as [i|]; [done|].
  cbn. destruct (Ascii.eqb c d); [|done]. by destruct s.
Qed.

Lemma rfind_char_absent (c : ascii) (s : string) :
  has_char c s = false → rfind_char c s = None.
Proof.
  induction s as [|d s IH]; [done|]. cbn.
  intros [Hd Hs]%orb_false_elim. by rewrite IH, Hd.
Qed.

Lemma rfind_char_last (c : ascii) (a b : string) :
  has_char c b = false →
  rfind_char c (a +:+ String c b) = Some (String.length a).
Proof.
  intros Hb. induction a as [|x a IH].
  - rewrite str_app_nil_l. cbn. by rewrite rfind_char_absent, Ascii.eqb_refl.
  - rewrite str_app_cons. cbn [rfind_char]. by rewrite IH.
Qed.

Lemma endswith_app (a b : string) : endswith (a +:+ b) b = true.
Proof.
  unfold endswith. rewrite str_app_length.
  replace (String.length a + String.length b - String.length b)%nat
    with (String.length a) by lia.
  rewrite SplitFacts.drop_app, String.eqb_refl. cbn. apply Nat.leb_le. lia.
Qed.

Lemma endswith_inv (s suffix : string) :
  endswith s suffix = true → ∃ p, s = p +:+ suffix.
Proof.
  unfold endswith. intros [Heq _]%andb_prop. apply String.eqb_eq in Heq.
  exists (take (String.length s - String.length suffix) s).
  by rewrite <- Heq at 2; rewrite take_drop.
Qed.

(** A name ending in [x] does not end in another suffix of the same
    length. *)
Lemma endswith_other (s x y : string) :
  String.length x = String.length y → x ≠ y →
  endswith (s +:+ x) y = false.
Proof.
  intros Hlen Hne. unfold endswith. rewrite str_app_length, Hlen.
  replace (String.length s + String.length y - String.length y)%nat
    with (String.length s) by lia.
  rewrite SplitFacts.drop_app. by apply String.eqb_neq in Hne as ->.
Qed.

Lemma lower_app (a b : string) : lower (a +:+ b) = lower a +:+ lower b.
Proof.
  induction a as [|c a IH]; [done|].
  rewrite str_app_cons. cbn. by rewrite IH.
Qed.

Lemma lower_char_idempotent (c : ascii) : lower_char (lower_char c) = lower_char c.
Proof. by destruct c as [[] [] [] [] [] [] [] []]. Qed.

Lemma lower_idempotent (s : string) : lower (lower s) = lower s.
Proof.
  induction s as [|c s IH]; [done|]. cbn. by rewrite lower_char_idempotent, IH.
Qed.

(** The base name of a joined path is the name joined, when the name has
    no slash. *)
Lemma basename_join (folder name : string) :
  has_char "/" name = false →
  OsPath.basename (OsPath.join folder name) = name.
Proof.
  intros Hname. unfold OsPath.join, OsPath.basename, OsPath.rfind, OsPath.slash.
  destruct (String.prefix "/" name) eqn:Hp.
  { destruct name as [|c name]; [done|]. cbn [String.prefix] in Hp.
    destruct (ascii_dec "/" c) as [<-|]; [|discriminate].
    cbn in Hname. discriminate. }
  destruct ((folder =? "")%string || endswith folder "/") eqn:Hsep.
  - apply orb_prop in Hsep as [->%String.eqb_eq | [p ->]%endswith_inv].
    + rewrite str_app_nil_l, rfind_char_absent by done. done.
    + rewrite str_app_assoc.
      change ("/" +:+ name) with (String "/" name).
      rewrite rfind_char_last by done.
      replace (Z.to_nat (Z.of_nat (String.length p) + 1)) with (S (String.length p)) by lia.
      change (String "/" name) with ("/" +:+ name).
      rewrite <- str_app_assoc.
      replace (S (String.length p)) with (String.length (p +:+ "/"))
        by (rewrite str_app_length; cbn; lia).
      apply SplitFacts.drop_app.
  - change ("/" +:+ name) with (String "/" name).
    rewrite rfind_char_last by done.
    replace (Z.to_nat (Z.of_nat (String.length folder) + 1))
      with (S (String.length folder)) by lia.
    change (String "/" name) with ("/" +:+ name).
    rewrite <- str_app_assoc.
    replace (S (String.length folder)) with (String.length (folder +:+ "/"))
      by (rewrite str_app_length; cbn; lia).
    apply SplitFacts.drop_app.
Qed.

Lemma basename_no_slash (p : string) : has_char "/" (OsPath.basename p) = false.
Proof.
  unfold OsPath.basename, OsPath.rfind, OsPath.slash.
  pose proof (rfind_char_spec "/" p) as Hspec.
  destruct (rfind_char "/" p) as [i|].
  - by replace (Z.to_nat (Z.of_nat i + 1)) with (S i) by lia.
  - done.
Qed.

Lemma splitext_fst_no_slash (p : string) :
  has_char "/" p = false → has_char "/" (fst (OsPath.splitext p)) = false.
Proof.
  intros Hp. unfold OsPath.splitext.
  destruct (_ && _); cbn [fst]; [by apply has_char_take | done].
Qed.

Lemma has_non_dot_app (a b : string) :
  OsPath.has_non_dot (a +:+ b) = OsPath.has_non_dot a || OsPath.has_non_dot b.
Proof.
  induction a as [|c a IH]; [done|].
  rewrite str_app_cons. cbn. by rewrite IH, orb_assoc.
Qed.

(** The name of a cleaned audio file splits into its stem and [.wav]. *)
Lemma splitext_cleaned (stem : string) :
  has_char "/" stem = false →
  OsPath.splitext (stem +:+ "_cleaned.wav") = (stem +:+ "_cleaned", ".wav").
Proof.
  intros Hstem. unfold OsPath.splitext, OsPath.rfind, OsPath.slash, OsPath.dot.
  rewrite (rfind_char_absent "/") by (by rewrite has_char_app, Hstem).
  change (stem +:+ "_cleaned.wav") with (stem +:+ "_cleaned" +:+ String "." "wav").
  rewrite <- str_app_assoc.
  rewrite (rfind_char_last "." (stem +:+ "_cleaned") "wav") by done.
  replace (-1 <? Z.of_nat (String.length (stem +:+ "_cleaned"))) with true
    by (symmetry; apply Z.ltb_lt; lia).
  replace (Z.to_nat (Z.of_nat (String.length (stem +:+ "_cleaned")) - (-1 + 1)))
    with (String.length (stem +:+ "_cleaned")) by lia.
  replace (Z.to_nat (Z.of_nat (String.length (stem +:+ "_cleaned"))))
    with (String.length (stem +:+ "_cleaned")) by lia.
  change (Z.to_nat (-1 + 1)) with 0%nat. cbn [drop andb].
  rewrite take_app, SplitFacts.drop_app, has_non_dot_app.
  by rewrite orb_true_r.
Qed.

End PathFacts.

(** X10. For a listed file name (no slash in it), the cleaned audio of the
    file has the artifact [<output_folder>/<stem>.txt], and so has the
    original file unless its stem itself ends in [_cleaned]: with or without
    noise cleaning a file is transcribed into the same artifact. *)
Theorem cleaned_and_original_share_artifact (af cf folder filename : string) :
  let stem := fst (OsPath.splitext filename) in
  has_char "/" filename = false →
  output_path_of (cleaned_path_of cf filename) folder
    = OsPath.join folder (stem +:+ ".txt")
  ∧ (PyStr.endswith stem "_cleaned" = false →
     output_path_of (OsPath.join af filename) folder
     = OsPath.join folder (stem +:+ ".txt")).
Proof.
  intros stem Hname.
  assert (Hstem : has_char "/" stem = false) by by apply PathFacts.splitext_fst_no_slash.
  split.
  - unfold output_path_of, cleaned_path_of. fold stem.
    rewrite PathFacts.basename_join
      by (by rewrite PathFacts.has_char_app, Hstem).
    rewrite PathFacts.splitext_cleaned by done. cbn [fst].
    rewrite PathFacts.endswith_app, PyStrFacts.str_app_length.
    replace (String.length stem + String.length "_cleaned" - 8)%nat
      with (String.length stem) by (cbn; lia).
    by rewrite PathFacts.take_app.
  - intros Hplain. unfold output_path_of.
    rewrite PathFacts.basename_join by done. fold stem. by rewrite Hplain.
Qed.

Lemma cleaned_and_original_share_artifact_witness :
  output_path_of (cleaned_path_of "in/cleaned" "a.mp3") "out"
    = OsPath.join "out" (fst (OsPath.splitext "a.mp3") +:+ ".txt")
  ∧ (PyStr.endswith (fst (OsPath.splitext "a.mp3")) "_cleaned" = false →
     output_path_of (OsPath.join "in" "a.mp3") "out"
     = OsPath.join "out" (fst (OsPath.splitext "a.mp3") +:+ ".txt")).
Proof.
  apply (cleaned_and_original_share_artifact "in" "in/cleaned" "out" "a.mp3").
  reflexivity.
Defined.

(** A stem that ends in [_cleaned] is the exception. *)
Example cleaned_stem_artifacts :
  output_path_of (OsPath.join "in" "x_cleaned.mp3") "out" = "out/x.txt"
  ∧ output_path_of (cleaned_path_of "in/cleaned" "x_cleaned.mp3") "out"
    = "out/x_cleaned.txt".
Proof. split; reflexivity. Qed.

Lemma supported_txt (name : string) : supported (name +:+ ".txt") = false.
Proof.
  unfold supported, SUPPORTED_EXTENSIONS. rewrite PathFacts.lower_app.
  change (PyStr.lower ".txt") with ".txt". cbn [existsb].
  by rewrite !PathFacts.endswith_other.
Qed.

(** X11. The file name of an artifact never matches the extension
    allow-list: artifacts are not taken for media, also when the output
    folder is the input folder. *)
Theorem artifacts_are_not_media (file folder : string) :
  ∃ name,
    OsPath.basename (output_path_of file folder) = name +:+ ".txt"
    ∧ supported (OsPath.basename (output_path_of file folder)) = false.
Proof.
  unfold output_path_of.
  set (stem := fst (OsPath.splitext (OsPath.basename file))).
  assert (Hstem : has_char "/" stem = false).
  { apply PathFacts.splitext_fst_no_slash, PathFacts.basename_no_slash. }
  set (name := if PyStr.endswith stem "_cleaned"
               then PyStr.take (String.length stem - 8) stem else stem).
  assert (Hname : has_char "/" name = false).
  { subst name. destruct (PyStr.endswith stem "_cleaned"); [|done].
    by apply PathFacts.has_char_take. }
  exists name.
  rewrite PathFacts.basename_join by (by rewrite PathFacts.has_char_app, Hname).
  split; [done|]. apply supported_txt.
Qed.

(** The extension filter sees the lower-cased name only. *)
Lemma supported_lower (f : string) : supported (PyStr.lower f) = supported f.
Proof. unfold supported. by rewrite PathFacts.lower_idempotent. Qed.

(** X12. The extension filter accepts every name that ends in an
    allow-listed extension in any spelling of upper and lower case. *)
Theorem any_case_extension_is_supported (name ext ext' : string) :
  In ext SUPPORTED_EXTENSIONS → PyStr.lower ext' = ext →
  supported (name +:+ ext') = true.
Proof.
  intros Hext Hlower. unfold supported.
  rewrite PathFacts.lower_app, Hlower. apply existsb_exists.
  exists ext. split; [done|]. apply PathFacts.endswith_app.
Qed.

Lemma any_case_extension_is_supported_witness :
  supported ("Interview 01" +:+ ".Mp3") = true.
Proof.
  apply (any_case_extension_is_supported "Interview 01" ".mp3" ".Mp3").
  - cbn. auto.
  - reflexivity.
Defined.

(** ** Reading back the summarized layout *)

Module LayoutFacts.
Import PyStr PyStrFacts.

(** A block without the character [c], found at the head of [a c b], lies
    in [a]. *)
Lemma block_at_head (c : ascii) (block a b rest : string) :
  has_char c block = false →
  a +:+ String c b = block +:+ rest →
  ∃ q, a = block +:+ q ∧ rest = q +:+ String c b.
Proof.
  intros Hblock. revert a. induction block as [|x block IH]; intros a Heq.
  - exists a. by rewrite !str_app_nil_l in *.
  - cbn in Hblock. apply orb_false_elim in Hblock as [Hx Hblock].
    destruct a as [|y a].
    + rewrite str_app_nil_l, str_app_cons in Heq. injection Heq as -> _.
      by rewrite Ascii.eqb_refl in Hx.
    + rewrite !str_app_cons in Heq. injection Heq as -> Heq.
      destruct (IH Hblock a Heq) as (q & -> & ->). by exists q.
Qed.

(** A block without the character [c] occurs in [a c b] either inside [a]
    or inside [b]. *)
Lemma block_avoids_char (c : ascii) (block a b before rest : string) :
  has_char c block = false →
  a +:+ String c b = before +:+ block +:+ rest →
  (∃ q, a = before +:+ block +:+ q ∧ rest = q +:+ String c b)
  ∨ (∃ q, before = a +:+ String c q ∧ b = q +:+ block +:+ rest).
Proof.
  intros Hblock. revert a. induction before as [|x before IH]; intros a Heq.
  - left. rewrite str_app_nil_l in Heq.
    destruct (block_at_head c block a b rest Hblock Heq) as (q & -> & ->).
    by exists q.
  - destruct a as [|y a].
    + right. rewrite str_app_nil_l, str_app_cons in Heq. injection Heq as -> ->.
      by exists before.
    + rewrite !str_app_cons in Heq. injection Heq as -> Heq.
      destruct (IH a Heq) as [(q & -> & ->)|(q & -> & ->)].
      * left. by exists q.
      * right. by exists q.
Qed.

Lemma app_same_length (a b : string) :
  a = b +:+ a → b = "".
Proof.
  intros H%(f_equal String.length). rewrite str_app_length in H.
  destruct b; [done|]. cbn in H. lia.
Qed.

(** The last piece of the summarized layout, split at the marker, is the
    line feed and the old content. *)
Lemma summarized_layout_last_piece (summary plain : string) :
  ¬ occurs_in TRANSCRIPT_MARKER plain →
  last_item (split TRANSCRIPT_MARKER (summarized_layout summary plain))
  = LF +:+ plain.
Proof.
  intros Hplain.
  set (lf := ascii_of_nat 10).
  assert (Hmarker : has_char lf TRANSCRIPT_MARKER = false) by reflexivity.
  set (head := SUMMARY_HEADER +:+ LF +:+ summary +:+ LF).
  assert (Hlayout : summarized_layout summary plain
                    = head +:+ String lf (TRANSCRIPT_MARKER +:+ String lf plain)).
  { unfold summarized_layout, head, LF. fold lf.
    rewrite !str_app_assoc. reflexivity. }
  destruct (SplitFacts.split_last TRANSCRIPT_MARKER (summarized_layout summary plain))
    as [[Hwhole|[before Hcut]] Hnone]; [done| |]; cbn zeta in *.
  - destruct Hnone. rewrite Hwhole, Hlayout.
    exists (head +:+ String lf ""), (String lf plain).
    rewrite !str_app_assoc. reflexivity.
  - set (rest := last_item (split TRANSCRIPT_MARKER (summarized_layout summary plain))) in *.
    rewrite Hlayout in Hcut.
    destruct (block_avoids_char lf TRANSCRIPT_MARKER _ _ _ _ Hmarker Hcut)
      as [(q & _ & Hrest)|(q & _ & Hinner)].
    + destruct Hnone. rewrite Hrest.
      exists (q +:+ String lf ""), (String lf plain).
      rewrite !str_app_assoc. reflexivity.
    + change (TRANSCRIPT_MARKER +:+ String lf plain = q +:+ TRANSCRIPT_MARKER +:+ rest)
        in Hinner.
      destruct (block_avoids_char lf TRANSCRIPT_MARKER _ _ _ _ Hmarker Hinner)
        as [(q' & Hself & Hrest)|(q' & _ & Hin)].
      * assert (q' = "") as ->.
        { destruct q as [|x q].
          - rewrite str_app_nil_l in Hself.
            rewrite <- (str_app_nil_r TRANSCRIPT_MARKER) in Hself at 1.
            by apply (inj (String.app _)) in Hself.
          - apply (f_equal String.length) in Hself.
            rewrite !str_app_length in Hself. cbn in Hself. lia. }
        by rewrite Hrest.
      * destruct Hplain. by exists q', rest.
Qed.

Lemma strip_leading_line_feed (s : string) : strip (LF +:+ s) = strip s.
Proof. reflexivity. Qed.

End LayoutFacts.

(** X13. Reading back the layout that the summarization pass writes: when
    the artifact is the summarized layout of a summary and an old content in
    which the marker does not occur, the transcription step returns the
    stripped old content, whatever the summary contains, calls no service
    and changes nothing. *)
Theorem summarized_layout_read_back (m : whisper) (file folder lang : string)
    (w : world) (summary plain : string) :
  let out := output_path_of file folder in
  fs w !! out = Some (File (summarized_layout summary plain)) →
  ¬ occurs_in TRANSCRIPT_MARKER plain →
  transcribe_audio m file folder lang w = (Ok (true, out, PyStr.strip plain), w).
Proof.
  intros out Hout Hplain.
  rewrite (transcribe_audio_existing _ _ _ _ _ _ Hout). fold out.
  by rewrite LayoutFacts.summarized_layout_last_piece, LayoutFacts.strip_leading_line_feed.
Qed.

Lemma summarized_layout_read_back_witness :
  transcribe_audio stub_whisper "in/a.mp3" "out" "id"
    (set_node "out/a.txt"
       (File (summarized_layout "S1 --- TRANSKRIPSI LENGKAP --- S2" plain_artifact))
       media_world)
  = (Ok (true, output_path_of "in/a.mp3" "out", PyStr.strip plain_artifact),
     set_node "out/a.txt"
       (File (summarized_layout "S1 --- TRANSKRIPSI LENGKAP --- S2" plain_artifact))
       media_world).
Proof.
  apply (summarized_layout_read_back stub_whisper "in/a.mp3" "out" "id"
           (set_node "out/a.txt"
              (File (summarized_layout "S1 --- TRANSKRIPSI LENGKAP --- S2"
                       plain_artifact))
              media_world)
           "S1 --- TRANSKRIPSI LENGKAP --- S2" plain_artifact).
  - vm_compute. reflexivity.
  - apply SplitFacts.partition_None. vm_compute. reflexivity.
Defined.

(** ** What reaches the services *)

Section Histories.
Context {P : event → Prop}.






End Histories.










(** ** The batch, case by case *)

Lemma makedirs_ok (path : string) (w w' : world) :
  makedirs path w = (Ok tt, w') →
  fs w' = with_directory path (fs w) ∧ trace w' = trace w.
Proof.
  unfold makedirs, with_directory.
  destruct (fs w !! path) as [[c| | |es]|]; by intros [= <-].
Qed.

Lemma makedirs_raise (path : string) (w w' : world) (e : exn) :
  makedirs path w = (Raise e, w') →
  e = FileExistsError path ∧ w' = w
  ∧ ∃ n, fs w !! path = Some n ∧ ∀ es, n ≠ Dir es.
Proof.
  unfold makedirs.
  destruct (fs w !! path) as [[c| | |es]|]; intros [= <- <-]; eauto.
Qed.

Lemma with_directory_keeps (path q : string) (n : node) (files : gmap string node) :
  files !! q = Some n → with_directory path files !! q = Some n.
Proof.
  intros Hq. unfold with_directory.
  destruct (files !! path) eqn:Hp; [done|].
  rewrite lookup_insert_ne; [done|]. intros ->. congruence.
Qed.

(** The three ways a batch over an existing folder goes: it raises while
    creating a directory, it finds nothing to process, or it processes
    every listed media file and reports. *)
Lemma run_batch_dir_cases (sv : services) (a : args) (m : whisper)
    (s : option summarizer) (w : world) (entries : list string) :
  let cf := OsPath.join (audio_folder a) "cleaned" in
  let files := List.filter supported entries in
  fs w !! audio_folder a = Some (Dir entries) →
  (∃ e w1,
     run_batch sv a m s w = (Raise e, w1)
     ∧ trace w1 = trace w
     ∧ (e = FileExistsError (output_folder a) ∧ fs w1 = fs w
        ∧ (∃ n, fs w !! output_folder a = Some n ∧ ∀ es, n ≠ Dir es)
        ∨ clean_noise a = true ∧ e = FileExistsError cf
          ∧ fs w1 = with_directory (output_folder a) (fs w)
          ∧ (∃ n, fs w1 !! cf = Some n ∧ ∀ es, n ≠ Dir es)))
  ∨ (∃ w2,
       trace w2 = trace w
       ∧ fs w2 = (if clean_noise a then with_directory cf else id)
                   (with_directory (output_folder a) (fs w))
       ∧ (files = [] ∧
          run_batch sv a m s w = (Ok tt, log (Print (MsgNoFiles (audio_folder a))) w2)
          ∨ ∃ sc fc w3,
              files ≠ []
              ∧ for_each (process_file sv a cf m s) files (O, O)
                  (log (Print (MsgFound (length files))) w2) = (Ok (sc, fc), w3)
              ∧ run_batch sv a m s w
                = (Ok tt,
                   log (Print (MsgSavedIn (output_folder a)))
                     (log (Print (MsgFailed fc))
                        (log (Print (MsgSucceeded sc))
                           (log (Print MsgFinished) w3)))))).
Proof.
  intros cf files Hdir.
  destruct (run_batch sv a m s w) as [r wf] eqn:Hrun. revert Hrun.
  unfold run_batch, bind at 1, isdir. rewrite Hdir.
  cbn [negb]. unfold bind at 1.
  destruct (makedirs (output_folder a) w) as [[[]|e] w1] eqn:Hmk1.
  2: { apply makedirs_raise in Hmk1 as (-> & -> & Hnode). intros [= <- <-].
       left. eexists _, _. split; [done|]. split; [done|]. left.
       do 2 (split; [done|]). exact Hnode. }
  apply makedirs_ok in Hmk1 as [Hfs1 Htr1].
  unfold bind at 1. fold cf.
  destruct ((if clean_noise a then makedirs cf else ret tt) w1) as [[[]|e] w2] eqn:Hmk2.
  2: { destruct (clean_noise a) eqn:Hclean; [|discriminate].
       apply makedirs_raise in Hmk2 as (-> & -> & Hnode). intros [= <- <-].
       left. eexists _, _. split; [done|]. split; [done|]. right.
       do 3 (split; [done|]). exact Hnode. }
  assert (Hw2 : trace w2 = trace w
                ∧ fs w2 = (if clean_noise a then with_directory cf else id)
                            (with_directory (output_folder a) (fs w))).
  { destruct (clean_noise a).
    - apply makedirs_ok in Hmk2 as [-> ->]. by rewrite Hfs1.
    - injection Hmk2 as <-. by rewrite Hfs1. }
  destruct Hw2 as [Htr2 Hfs2].
  assert (Hdir2 : fs w2 !! audio_folder a = Some (Dir entries)).
  { rewrite Hfs2. destruct (clean_noise a); cbn; by repeat apply with_directory_keeps. }
  unfold bind at 1, listdir. rewrite Hdir2. fold files.
  destruct files as [|f files'] eqn:Hfiles.
  { intros [= <- <-]. right. exists w2. split; [done|]. split; [done|]. by left. }
  unfold bind at 1, print at 1.
  destruct (for_each_process_file_counts sv a cf m s (f :: files') 0 0
              (log (Print (MsgFound (length (f :: files')))) w2))
    as (sc & fc & w3 & Hloop & _).
  unfold bind at 1. rewrite Hloop. intros [= <- <-].
  right. exists w2. split; [done|]. split; [done|].
  right. exists sc, fc, w3. split; [done|]. split; [exact Hloop|]. reflexivity.
Qed.








Lemma with_directory_existing (path : string) (files : gmap string node) :
  is_Some (files !! path) → with_directory path files = files.
Proof. intros [n Hn]. unfold with_directory. by rewrite Hn. Qed.



(** ** A second pass over a finished batch *)

Lemma process_file_finished (sv : services) (a : args) (cf : string) (m : whisper)
    (s : option summarizer) (f : string) (sc fc : nat) (w : world) :
  summarize a = false →
  (clean_noise a = true → is_Some (fs w !! cleaned_path_of cf f)) →
  (∃ content,
     fs w !! output_path_of (if clean_noise a then cleaned_path_of cf f
                             else OsPath.join (audio_folder a) f) (output_folder a)
     = Some (File content)) →
  process_file sv a cf m s f (sc, fc) w = (Ok (S sc, fc), w).
Proof.
  intros Hsum Hcleaned [content Hout].
  destruct (clean_noise a) eqn:Hclean.
  - eapply rerun_without_summary_changes_nothing; [|exact Hout|done].
    apply choose_file_existing; auto.
  - eapply rerun_without_summary_changes_nothing; [|exact Hout|done].
    unfold choose_file. by rewrite Hclean.
Qed.

Lemma for_each_finished (sv : services) (a : args) (cf : string) (m : whisper)
    (s : option summarizer) (files : list string) (sc fc : nat) (w : world) :
  summarize a = false →
  (∀ f, f ∈ files →
     (clean_noise a = true → is_Some (fs w !! cleaned_path_of cf f))
     ∧ ∃ content,
         fs w !! output_path_of (if clean_noise a then cleaned_path_of cf f
                                 else OsPath.join (audio_folder a) f) (output_folder a)
         = Some (File content)) →
  for_each (process_file sv a cf m s) files (sc, fc) w
  = (Ok ((sc + length files)%nat, fc), w).
Proof.
  intros Hsum. revert sc. induction files as [|f files IH]; intros sc Hall.
  - cbn. unfold ret. do 3 f_equal. lia.
  - cbn [for_each]. unfold bind.
    destruct (Hall f ltac:(apply list_elem_of_here)) as [Hc Ho].
    rewrite process_file_finished by done.
    rewrite IH by (intros f' Hf'; apply Hall; by apply list_elem_of_further).
    cbn [length]. do 3 f_equal. lia.
Qed.

(** X17. A second pass over a finished batch, without [--summarize]: when
    the output folder exists and every listed media file has its artifact
    (and, with [--clean_noise], its cleaned audio), a run changes no file
    and calls no service for any file; if it ends normally it reports every
    file as a success and none as a failure. *)
Theorem finished_batch_is_left_alone (sv : services) (a : args) (w : world)
    (entries : list string) :
  let cf := OsPath.join (audio_folder a) "cleaned" in
  let n := length (List.filter supported entries) in
  summarize a = false →
  fs w !! audio_folder a = Some (Dir entries) →
  (∃ es, fs w !! output_folder a = Some (Dir es)) →
  (clean_noise a = true → ∃ es, fs w !! cf = Some (Dir es)) →
  (∀ f, f ∈ entries → supported f = true →
     (clean_noise a = true → is_Some (fs w !! cleaned_path_of cf f))
     ∧ ∃ content,
         fs w !! output_path_of (if clean_noise a then cleaned_path_of cf f
                                 else OsPath.join (audio_folder a) f) (output_folder a)
         = Some (File content)) →
  fs (snd (main sv a w)) = fs w
  ∧ ∃ evs,
      trace (snd (main sv a w)) = trace w ++ evs
      ∧ forallb startup_event evs = true
      ∧ (fst (main sv a w) = Ok tt → n ≠ O →
         ∃ evs0,
           evs = evs0 ++ [Print (MsgFound n); Print MsgFinished;
                          Print (MsgSucceeded n); Print (MsgFailed 0);
                          Print (MsgSavedIn (output_folder a))]).
Proof.
  intros cf n Hsum Hdir [es1 Hout] Hcf Hall. subst cf. rewrite main_split.
  destruct (load_models_events sv a w) as (evs0 & Hfs & Htrace & Hstart & _).
  destruct (load_models sv a w) as [[[m s]|e0] w1]; cbn [fst snd] in *.
  2: { split; [done|]. exists evs0. split; [done|]. split; [done|]. intros [=]. }
  rewrite <- Hfs in Hdir, Hout, Hcf, Hall.
  assert (Hsame : (if clean_noise a
                   then with_directory (OsPath.join (audio_folder a) "cleaned")
                   else id)
                    (with_directory (output_folder a) (fs w1)) = fs w1).
  { rewrite (with_directory_existing (output_folder a)) by by rewrite Hout.
    destruct (clean_noise a); [|done].
    destruct Hcf as [es2 Hcf]; [done|].
    apply with_directory_existing. by rewrite Hcf. }
  destruct (run_batch_dir_cases sv a m s w1 entries Hdir)
    as [(e' & w2 & -> & _ & Hwhy)
       |(w2 & Htr & Hfs2 & [[Hnone ->]|(sc & fc & w3 & Hsome & Hloop & ->)])];
    cbn [fst snd log fs trace].
  - exfalso. destruct Hwhy as [(_ & _ & nd & Hn & Hnd)|(Hclean & _ & Hfs2 & nd & Hn & Hnd)].
    + rewrite Hout in Hn. injection Hn as <-. by destruct (Hnd es1).
    + destruct (Hcf Hclean) as [es2 Hcf2].
      rewrite Hfs2, (with_directory_existing (output_folder a)) in Hn
        by by rewrite Hout.
      rewrite Hcf2 in Hn. injection Hn as <-.
      by destruct (Hnd es2).
  - rewrite Hfs2, Hsame. split; [done|].
    exists (evs0 ++ [Print (MsgNoFiles (audio_folder a))]).
    split; [by rewrite Htr, Htrace, (assoc_L (++))|].
    split; [by rewrite forallb_app, Hstart|].
    intros _ Hn. subst n. fold (List.filter supported entries) in Hnone.
    by rewrite Hnone in Hn.
  - rewrite for_each_finished in Hloop.
    2: done.
    2: { intros f [Hin Hsup]%list_elem_of_In%filter_In. cbn [log fs].
         rewrite Hfs2, Hsame. apply Hall; [by apply list_elem_of_In | done]. }
    injection Hloop as <- <- <-. cbn [log fs trace].
    rewrite Hfs2, Hsame. split; [done|]. fold n.
    exists (evs0 ++ [Print (MsgFound n); Print MsgFinished; Print (MsgSucceeded n);
                     Print (MsgFailed 0); Print (MsgSavedIn (output_folder a))]).
    split; [by rewrite Htr, Htrace, <- !(assoc_L (++))|].
    split; [by rewrite forallb_app, Hstart|].
    intros _ _. by exists evs0.
Qed.

Lemma finished_batch_is_left_alone_witness :
  fs (snd (main stub_services (cli false false) transcribed_world))
  = fs transcribed_world
  ∧ ∃ evs,
      trace (snd (main stub_services (cli false false) transcribed_world))
      = trace transcribed_world ++ evs
      ∧ forallb startup_event evs = true
      ∧ (fst (main stub_services (cli false false) transcribed_world) = Ok tt →
         length (List.filter supported ["a.mp3"; "notes.txt"]) ≠ O →
         ∃ evs0,
           evs = evs0
                 ++ [Print (MsgFound (length (List.filter supported ["a.mp3"; "notes.txt"])));
                     Print MsgFinished;
                     Print (MsgSucceeded
                              (length (List.filter supported ["a.mp3"; "notes.txt"])));
                     Print (MsgFailed 0);
                     Print (MsgSavedIn (output_folder (cli false false)))]).
Proof.
  apply (finished_batch_is_left_alone stub_services (cli false false)
           transcribed_world ["a.mp3"; "notes.txt"]).
  - reflexivity.
  - vm_compute. reflexivity.
  - exists []. vm_compute. reflexivity.
  - discriminate.
  - intros f Hin Hsup. split; [discriminate|].
    apply list_elem_of_In in Hin. cbn in Hin.
    destruct Hin as [<-|[<-|[]]]; [|discriminate].
    exists plain_artifact. vm_compute. reflexivity.
Defined.

(** ** Failures are reported and leave no file behind *)


